(** * cpu_stress.c: a shallow embedding and its properties

    The program is a Win32 console executable: [main] parses a duration and
    an optional thread count, spawns one [worker_thread] per chosen logical
    processor, sleeps, raises [g_stop_flag] and waits for the workers.
    [ConsoleCtrlHandler] raises the same flag when the console delivers a
    termination event.

    The embedding is a small-step machine on a [World] (the shared flag, the
    state of [main], the table of threads the kernel created, the trace of
    outputs and system calls).  One step is one action of a schedule: a step
    of [main], a step of a worker, or an invocation of the control handler.
    Interleavings of the program are schedules. *)

From Stdlib Require Import ZArith Lia Ascii String DecimalString PrimFloat.
From stdpp Require Import base list.

Open Scope Z_scope.
Set Warnings "-inexact-float".

(** ** C integer types *)

Definition INT_MIN : Z := -2147483648.
Definition INT_MAX : Z := 2147483647.

(** Conversion to [int] (32 bits, two's complement). *)
Definition to_int (z : Z) : Z := (z + 2147483648) mod 4294967296 - 2147483648.

(** Conversion to [DWORD] (32 bits, unsigned). *)
Definition to_DWORD (z : Z) : Z := z mod 4294967296.

(** Conversion to [DWORD_PTR] (64 bits, unsigned, on a 64-bit target). *)
Definition to_DWORD_PTR (z : Z) : Z := z mod 18446744073709551616.

Definition EXIT_SUCCESS : Z := 0.
Definition EXIT_FAILURE : Z := 1.

(** ** The C runtime: [atoi] and the [%d] / [%lu] conversions *)

Definition nl : string := String (ascii_of_nat 10) EmptyString.

Definition isspace (c : ascii) : bool :=
  let n := Z.of_N (N_of_ascii c) in
  (n =? 32) || ((9 <=? n) && (n <=? 13)).

Definition digit_of (c : ascii) : option Z :=
  let n := Z.of_N (N_of_ascii c) in
  if (48 <=? n) && (n <=? 57) then Some (n - 48) else None.

Fixpoint skip_space (s : string) : string :=
  match s with
  | String c s' => if isspace c then skip_space s' else s
  | EmptyString => s
  end.

Fixpoint digits_value (acc : Z) (s : string) : Z :=
  match s with
  | String c s' =>
      match digit_of c with
      | Some d => digits_value (10 * acc + d) s'
      | None => acc
      end
  | EmptyString => acc
  end.

Definition saturate (z : Z) : Z :=
  if z <? INT_MIN then INT_MIN else if INT_MAX <? z then INT_MAX else z.

(** [atoi] of the C runtime: leading white space, an optional sign, decimal
    digits up to the first character that is not one; 0 when there is no
    digit.  Out of range the Microsoft runtime returns [INT_MAX] or
    [INT_MIN]. *)
Definition atoi (s : string) : Z :=
  match skip_space s with
  | String "-" s' => saturate (- digits_value 0 s')
  | String "+" s' => saturate (digits_value 0 s')
  | s' => saturate (digits_value 0 s')
  end.

(** [%d] of an [int]. *)
Definition fmt_d (z : Z) : string := NilZero.string_of_int (Z.to_int z).

(** [%lu] of a value cast to [unsigned long] (32 bits on Windows). *)
Definition fmt_lu (z : Z) : string := NilZero.string_of_int (Z.to_int (to_DWORD z)).

(** ** Console control events (wincon.h) *)

Definition CTRL_C_EVENT : Z := 0.
Definition CTRL_BREAK_EVENT : Z := 1.
Definition CTRL_CLOSE_EVENT : Z := 2.
Definition CTRL_LOGOFF_EVENT : Z := 5.
Definition CTRL_SHUTDOWN_EVENT : Z := 6.

(** ** What a run receives from outside *)

(** The command line and the answers of the operating system.  [argv0] is
    [argv[0]], [args] is [argv[1..argc-1]], so [argc = 1 + length args]. *)
Record Input := {
  argv0 : string;
  args : list string;
  dwNumberOfProcessors : Z;           (* GetSystemInfo, a DWORD *)
  SetConsoleCtrlHandler_ok : bool;
  calloc_ok : bool;
  CreateThread_ok : Z -> bool;        (* by loop index *)
  CreateThread_err : Z -> Z;          (* GetLastError after a failed spawn *)
  SetThreadAffinityMask_old : Z -> Z; (* by mask; 0 is failure *)
  SetThreadAffinityMask_err : Z -> Z  (* GetLastError after a failed pinning *)
}.

Definition argc (inp : Input) : Z := 1 + Z.of_nat (length (args inp)).

(** ** Observable events *)

Inductive Event :=
| Stdout (s : string)
| Stderr (s : string)
| CallSetConsoleCtrlHandler (ok : bool)
| CallCalloc (n : Z) (ok : bool)
| CallCreateThread (lpParam : Z) (h : Z)
| CallSetThreadAffinityMask (thread : nat) (mask : Z)
| CallSleep (ms : Z)
| CallWaitForMultipleObjects (nCount : Z) (handles : list Z) (failed : bool)
| CallCloseHandle (h : Z)
| CallFree.

(** ** Worker threads *)

(** Program points of [worker_thread]: before the pinning, at the test of
    the flag, inside the batch with its counter [i], returned. *)
Inductive WorkerPc :=
| WEntry
| WCheck (x : float)
| WBatch (i : Z) (x : float)
| WDone (ret : Z).

Record Worker := { lpParam : Z; w_pc : WorkerPc }.

Definition BATCH : Z := 100000.

(** One iteration of the arithmetic on the [volatile double]. *)
Definition batch_body (x : float) : float :=
  let x := (x * 1.0000001 + 0.0000001)%float in
  let x := (x / 1.00000007 + 0.00000009)%float in
  (x * x + 1.0)%float.

Definition cpu_index (wk : Worker) : Z := to_int (lpParam wk).

Definition affinity_mask (wk : Worker) : Z :=
  to_DWORD_PTR (Z.shiftl 1 (cpu_index wk)).

(** One step of [worker_thread] run by thread number [k], reading [flag]
    where the code reads [g_stop_flag]: the next program point and the
    events of the step. *)
Definition worker_thread (inp : Input) (k : nat) (flag : Z) (wk : Worker)
  : WorkerPc * list Event :=
  match w_pc wk with
  | WEntry =>
      let mask := affinity_mask wk in
      let old_mask := SetThreadAffinityMask_old inp mask in
      (WCheck 1.23456789%float,
       CallSetThreadAffinityMask k mask ::
       (if old_mask =? 0
        then [Stderr ("[Thread " ++ fmt_d (cpu_index wk)
                      ++ "] Erro em SetThreadAffinityMask ("
                      ++ fmt_lu (SetThreadAffinityMask_err inp mask)
                      ++ ")" ++ nl)%string]
        else []))
  | WCheck x =>
      if flag =? 0 then (WBatch 0 x, []) else (WDone 0, [])
  | WBatch i x =>
      if i <? BATCH then (WBatch (i + 1) (batch_body x), [])
      else (WCheck x, [])
  | WDone ret => (WDone ret, [])
  end.

(** Does the step read [g_stop_flag]? *)
Definition reads_flag (pc : WorkerPc) : bool :=
  match pc with WCheck _ => true | _ => false end.

(** ** The orchestrator *)

(** Locals of [main].  [threads] is the array returned by [calloc]; a
    [HANDLE] is a [Z], 0 is [NULL]. *)
Record Locals := {
  duration : Z;
  num_cpus : Z;
  num_threads : Z;
  threads : list Z
}.

(** Program points of [main]. *)
Inductive MainPc :=
| MStart                (* argument parsing up to the first printf *)
| MRegister             (* SetConsoleCtrlHandler *)
| MAlloc                (* calloc *)
| MSpawn (i : Z)        (* head of the spawn loop *)
| MSleep                (* Sleep *)
| MSetStop              (* InterlockedExchange (&g_stop_flag, 1) *)
| MWait                 (* WaitForMultipleObjects *)
| MClose (i : Z)        (* head of the CloseHandle loop *)
| MFree                 (* free and the last printf *)
| MReturned (code : Z). (* main has returned: the process is gone *)

Record World := {
  g_stop_flag : Z;
  handler_installed : bool;
  main_pc : MainPc;
  locals : Locals;
  thread_table : list Worker;  (* threads made by CreateThread, in order *)
  trace : list Event;          (* outputs and system calls, oldest first *)
  flag_reads : list Z          (* history: values the workers read, oldest first *)
}.

Definition initial_locals : Locals :=
  {| duration := 0; num_cpus := 0; num_threads := 0; threads := [] |}.

(** The process at its start: [static volatile LONG g_stop_flag = 0]. *)
Definition initial_world : World :=
  {| g_stop_flag := 0; handler_installed := false; main_pc := MStart;
     locals := initial_locals; thread_table := []; trace := [];
     flag_reads := [] |}.

(** Field updates. *)
Definition set_flag (v : Z) (w : World) : World :=
  {| g_stop_flag := v; handler_installed := handler_installed w;
     main_pc := main_pc w; locals := locals w;
     thread_table := thread_table w; trace := trace w;
     flag_reads := flag_reads w |}.

Definition set_installed (b : bool) (w : World) : World :=
  {| g_stop_flag := g_stop_flag w; handler_installed := b;
     main_pc := main_pc w; locals := locals w;
     thread_table := thread_table w; trace := trace w;
     flag_reads := flag_reads w |}.

Definition set_pc (pc : MainPc) (w : World) : World :=
  {| g_stop_flag := g_stop_flag w; handler_installed := handler_installed w;
     main_pc := pc; locals := locals w;
     thread_table := thread_table w; trace := trace w;
     flag_reads := flag_reads w |}.

Definition set_locals (l : Locals) (w : World) : World :=
  {| g_stop_flag := g_stop_flag w; handler_installed := handler_installed w;
     main_pc := main_pc w; locals := l;
     thread_table := thread_table w; trace := trace w;
     flag_reads := flag_reads w |}.

Definition set_table (t : list Worker) (w : World) : World :=
  {| g_stop_flag := g_stop_flag w; handler_installed := handler_installed w;
     main_pc := main_pc w; locals := locals w;
     thread_table := t; trace := trace w;
     flag_reads := flag_reads w |}.

Definition emit (es : list Event) (w : World) : World :=
  {| g_stop_flag := g_stop_flag w; handler_installed := handler_installed w;
     main_pc := main_pc w; locals := locals w;
     thread_table := thread_table w; trace := trace w ++ es;
     flag_reads := flag_reads w |}.

Definition log_read (v : Z) (w : World) : World :=
  {| g_stop_flag := g_stop_flag w; handler_installed := handler_installed w;
     main_pc := main_pc w; locals := locals w;
     thread_table := thread_table w; trace := trace w;
     flag_reads := flag_reads w ++ [v] |}.

Definition set_threads (t : list Z) (l : Locals) : Locals :=
  {| duration := duration l; num_cpus := num_cpus l;
     num_threads := num_threads l; threads := t |}.

(** [InterlockedExchange (&g_stop_flag, 1)], its old value dropped. *)
Definition InterlockedExchange_stop (w : World) : World := set_flag 1 w.

(** *** The control handler *)

Definition TRUE : Z := 1.
Definition FALSE : Z := 0.

Definition ConsoleCtrlHandler (ctrl_type : Z) (w : World) : World * Z :=
  if (ctrl_type =? CTRL_C_EVENT) || (ctrl_type =? CTRL_BREAK_EVENT)
     || (ctrl_type =? CTRL_CLOSE_EVENT) || (ctrl_type =? CTRL_SHUTDOWN_EVENT)
  then (InterlockedExchange_stop w, TRUE)
  else (w, FALSE).

(** *** Configuration *)

(** [num_cpus] from the processor count the system reports. *)
Definition available_processor_count (dw : Z) : Z :=
  let n := to_int dw in
  if n <? 1 then 1 else n.

(** [num_threads]: the request is [atoi (argv[2])] when there is one. *)
Definition effective_thread_count (requested : option Z) (ncpus : Z) : Z :=
  let n := match requested with Some r => r | None => ncpus end in
  let n := if n <=? 0 then 1 else n in
  if ncpus <? n then ncpus else n.

(** [argc >= 3 ? atoi (argv[2]) : num_cpus]: the request, when there is
    one.  [args inp !! 1] is [argv[2]]. *)
Definition requested_thread_count (inp : Input) : option Z :=
  if 3 <=? argc inp then atoi <$> args inp !! 1%nat else None.

Definition usage_message (inp : Input) : string :=
  ("Uso: " ++ argv0 inp ++ " <duracao_em_segundos> [num_threads]" ++ nl)%string.

Definition invalid_duration_message : string :=
  ("Duracao invalida" ++ nl)%string.

Definition banner (l : Locals) : string :=
  ("Estressando CPU por " ++ fmt_d (duration l) ++ " segundos usando "
   ++ fmt_d (num_threads l) ++ " threads (de " ++ fmt_d (num_cpus l)
   ++ " CPUs logicos)" ++ nl)%string.

(** *** Threads and handles in the kernel *)

(** The handle [CreateThread] returns for the k-th thread of the table. *)
Definition handle_of (k : nat) : Z := Z.of_nat k + 1.

Definition thread_of_handle (tbl : list Worker) (h : Z) : option Worker :=
  if h <=? 0 then None else tbl !! Z.to_nat (h - 1).

Definition has_exited (wk : Worker) : bool :=
  match w_pc wk with WDone _ => true | _ => false end.

Definition MAXIMUM_WAIT_OBJECTS : Z := 64.

Inductive WaitResult := WAIT_OBJECT_0 | WAIT_FAILED | WaitBlocked.

(** [WaitForMultipleObjects (nCount, handles, TRUE, INFINITE)] as the Win32
    documentation gives it: the call fails at once when [nCount] is 0 or
    above [MAXIMUM_WAIT_OBJECTS] or when one of the handles is not a valid
    handle ([NULL] is none); otherwise it returns when every thread named
    has exited, and blocks until then. *)
Definition WaitForMultipleObjects (tbl : list Worker) (nCount : Z)
    (handles : list Z) : WaitResult :=
  let hs := take (Z.to_nat nCount) handles in
  if (nCount <=? 0) || (MAXIMUM_WAIT_OBJECTS <? nCount) then WAIT_FAILED
  else if forallb (fun h => bool_decide (is_Some (thread_of_handle tbl h))) hs
  then
    if forallb (fun h => match thread_of_handle tbl h with
                         | Some wk => has_exited wk
                         | None => false
                         end) hs
    then WAIT_OBJECT_0 else WaitBlocked
  else WAIT_FAILED.

(** *** One step of [main] *)

Definition handler_warning : string :=
  ("Aviso: nao foi possivel registrar ConsoleCtrlHandler." ++ nl)%string.

Definition memory_error : string := ("Erro de memoria" ++ nl)%string.

Definition spawn_error (inp : Input) (i : Z) : string :=
  ("Erro ao criar thread " ++ fmt_d i ++ " (erro "
   ++ fmt_lu (CreateThread_err inp i) ++ ")" ++ nl)%string.

Definition finished_message : string := ("Finalizado." ++ nl)%string.

Definition main (inp : Input) (w : World) : World :=
  let l := locals w in
  match main_pc w with
  | MStart =>
      match args inp with
      | [] =>                                   (* argc < 2 *)
          set_pc (MReturned EXIT_FAILURE) (emit [Stderr (usage_message inp)] w)
      | argv1 :: _ =>
          let duration := atoi argv1 in
          if duration <=? 0 then
            set_pc (MReturned EXIT_FAILURE)
                   (emit [Stderr invalid_duration_message] w)
          else
            let ncpus := available_processor_count (dwNumberOfProcessors inp) in
            let n := effective_thread_count (requested_thread_count inp) ncpus in
            let l := {| duration := duration; num_cpus := ncpus;
                        num_threads := n; threads := [] |} in
            set_pc MRegister (emit [Stdout (banner l)] (set_locals l w))
      end
  | MRegister =>
      let ok := SetConsoleCtrlHandler_ok inp in
      set_pc MAlloc
        (emit (CallSetConsoleCtrlHandler ok ::
               if ok then [] else [Stderr handler_warning])
              (set_installed ok w))
  | MAlloc =>
      let n := num_threads l in
      if calloc_ok inp then
        set_pc (MSpawn 0)
          (emit [CallCalloc n true]
                (set_locals (set_threads (replicate (Z.to_nat n) 0) l) w))
      else
        set_pc (MReturned EXIT_FAILURE)
               (emit [CallCalloc n false; Stderr memory_error] w)
  | MSpawn i =>
      if i <? num_threads l then
        if CreateThread_ok inp i then
          let h := handle_of (length (thread_table w)) in
          set_pc (MSpawn (i + 1))
            (emit [CallCreateThread i h]
               (set_table (thread_table w ++ [{| lpParam := i; w_pc := WEntry |}])
                  (set_locals (set_threads (<[Z.to_nat i := h]> (threads l)) l) w)))
        else
          set_pc (MSpawn (i + 1))
            (emit [CallCreateThread i 0; Stderr (spawn_error inp i)]
               (set_locals (set_threads (<[Z.to_nat i := 0]> (threads l)) l) w))
      else set_pc MSleep w
  | MSleep =>
      set_pc MSetStop
        (emit [CallSleep (to_DWORD (to_DWORD (duration l) * 1000))] w)
  | MSetStop => set_pc MWait (InterlockedExchange_stop w)
  | MWait =>
      let n := to_DWORD (num_threads l) in
      match WaitForMultipleObjects (thread_table w) n (threads l) with
      | WaitBlocked => w
      | WAIT_OBJECT_0 =>
          set_pc (MClose 0)
                 (emit [CallWaitForMultipleObjects n (threads l) false] w)
      | WAIT_FAILED =>
          set_pc (MClose 0)
                 (emit [CallWaitForMultipleObjects n (threads l) true] w)
      end
  | MClose i =>
      if i <? num_threads l then
        match threads l !! Z.to_nat i with
        | Some h =>
            set_pc (MClose (i + 1))
                   (if h =? 0 then w else emit [CallCloseHandle h] w)
        | None => set_pc (MClose (i + 1)) w
        end
      else set_pc MFree w
  | MFree =>
      set_pc (MReturned EXIT_SUCCESS) (emit [CallFree; Stdout finished_message] w)
  | MReturned _ => w
  end.

(** *** One step of the thread number [k] of the table *)

Definition worker_step (inp : Input) (k : nat) (w : World) : World :=
  match thread_table w !! k with
  | None => w
  | Some wk =>
      let '(pc', es) := worker_thread inp k (g_stop_flag w) wk in
      let w1 := if reads_flag (w_pc wk) then log_read (g_stop_flag w) w else w in
      emit es
        (set_table (<[k := {| lpParam := lpParam wk; w_pc := pc' |}]> (thread_table w))
                   w1)
  end.

(** ** Schedules *)

Inductive Action :=
| ActMain                  (* main runs to its next program point *)
| ActWorker (k : nat)      (* the k-th thread runs to its next program point *)
| ActCtrl (ctrl_type : Z). (* the console delivers a control event *)

Definition process_gone (w : World) : bool :=
  match main_pc w with MReturned _ => true | _ => false end.

(** One action.  Returning from [main] ends the process, after which nothing
    runs; a control event reaches [ConsoleCtrlHandler] only once
    [SetConsoleCtrlHandler] has installed it. *)
Definition step (inp : Input) (a : Action) (w : World) : World :=
  if process_gone w then w
  else
    match a with
    | ActMain => main inp w
    | ActWorker k => worker_step inp k w
    | ActCtrl c =>
        if handler_installed w then fst (ConsoleCtrlHandler c w) else w
    end.

Definition run (inp : Input) (sched : list Action) (w : World) : World :=
  foldl (fun w a => step inp a w) w sched.

Definition exit_code (w : World) : option Z :=
  match main_pc w with MReturned c => Some c | _ => None end.

Definition stderr_of (tr : list Event) : list string :=
  omap (fun e => match e with Stderr s => Some s | _ => None end) tr.

Definition stdout_of (tr : list Event) : list string :=
  omap (fun e => match e with Stdout s => Some s | _ => None end) tr.

(** The [lpParam] of every [CreateThread] call of a trace, in order. *)
Definition spawn_params (tr : list Event) : list Z :=
  omap (fun e => match e with CallCreateThread p _ => Some p | _ => None end) tr.

(** ** Sample inputs *)

Definition all_ok (argv : list string) (ncpu : Z) : Input :=
  {| argv0 := "cpu_stress.exe"; args := argv; dwNumberOfProcessors := ncpu;
     SetConsoleCtrlHandler_ok := true; calloc_ok := true;
     CreateThread_ok := fun _ => true; CreateThread_err := fun _ => 0;
     SetThreadAffinityMask_old := fun _ => 1;
     SetThreadAffinityMask_err := fun _ => 0 |}.

(** As [all_ok], but the spawn of index 1 fails with error 8. *)
Definition second_spawn_fails (argv : list string) (ncpu : Z) : Input :=
  {| argv0 := "cpu_stress.exe"; args := argv; dwNumberOfProcessors := ncpu;
     SetConsoleCtrlHandler_ok := true; calloc_ok := true;
     CreateThread_ok := fun i => negb (i =? 1); CreateThread_err := fun _ => 8;
     SetThreadAffinityMask_old := fun _ => 1;
     SetThreadAffinityMask_err := fun _ => 0 |}.

(** * Notions the properties are stated with *)

(** ** Command lines and control events *)

(** [argc < 2]: there is no [argv[1]]. *)
Definition missing_duration (inp : Input) : Prop := args inp = [].

(** There is an [argv[1]] and [atoi] reads it as 0 or less. *)
Definition non_positive_duration (inp : Input) : Prop :=
  exists argv1 rest, args inp = argv1 :: rest /\ atoi argv1 <= 0.

(** Ctrl+C, Ctrl+Break, console close, system shutdown. *)
Definition is_termination_event (ctrl_type : Z) : Prop :=
  ctrl_type = CTRL_C_EVENT \/ ctrl_type = CTRL_BREAK_EVENT \/
  ctrl_type = CTRL_CLOSE_EVENT \/ ctrl_type = CTRL_SHUTDOWN_EVENT.

(** ** The history of the flag *)

(** The flag is 0 or 1, and the values read so far are 0s followed by 1s,
    the 1s only once the flag is 1. *)
Definition flag_history_ok (w : World) : Prop :=
  (g_stop_flag w = 0 \/ g_stop_flag w = 1) /\
  exists n m : nat,
    flag_reads w = replicate n 0 ++ replicate m 1 /\
    (m <> 0%nat -> g_stop_flag w = 1).

(** ** Workers in their loop *)

(** Inside the loop of [worker_thread]. *)
Definition in_loop (pc : WorkerPc) : bool :=
  match pc with WCheck _ | WBatch _ _ => true | _ => false end.

(** Past the pinning: inside the loop or returned. *)
Definition loop_or_done (pc : WorkerPc) : bool :=
  match pc with WEntry => false | _ => true end.

(** Iterations of the arithmetic left in the batch a worker is in. *)
Definition batch_left (pc : WorkerPc) : Z :=
  match pc with WBatch i _ => Z.max 0 (BATCH - i) | _ => 0 end.

(** Steps a worker needs to return once the flag is set: the rest of its
    batch, the exit of the batch, the test of the flag. *)
Definition steps_to_exit (pc : WorkerPc) : nat :=
  match pc with
  | WEntry => 2
  | WCheck _ => 1
  | WBatch i _ => Z.to_nat (BATCH - i) + 2
  | WDone _ => 0
  end.

(** Where a worker ends: [return 0], unless it has returned already. *)
Definition exit_pc (pc : WorkerPc) : WorkerPc :=
  match pc with WDone r => WDone r | _ => WDone 0 end.

(** Is [a] a turn of thread [k]? *)
Definition is_turn_of (k : nat) (a : Action) : bool :=
  match a with ActWorker k' => Nat.eqb k' k | _ => false end.

(** How many times the schedule runs thread [k]. *)
Fixpoint turns (k : nat) (sched : list Action) : nat :=
  match sched with
  | [] => 0
  | a :: s => ((if is_turn_of k a then 1 else 0) + turns k s)%nat
  end.

(** Iterations of the arithmetic that action [a] makes thread [k] execute
    in [w]. *)
Definition iterations_in_step (k : nat) (a : Action) (w : World) : Z :=
  if is_turn_of k a && negb (process_gone w) then
    match thread_table w !! k with
    | Some wk =>
        match w_pc wk with
        | WBatch i _ => if i <? BATCH then 1 else 0
        | _ => 0
        end
    | None => 0
    end
  else 0.

(** Iterations thread [k] executes along a schedule. *)
Fixpoint iterations (inp : Input) (k : nat) (sched : list Action) (w : World) : Z :=
  match sched with
  | [] => 0
  | a :: s => iterations_in_step k a w + iterations inp k s (step inp a w)
  end.

(** The counter [i] of the batch loop is within its bounds. *)
Definition counter_ok (wk : Worker) : Prop :=
  match w_pc wk with WBatch i _ => 0 <= i <= BATCH | _ => True end.

(** ** The progress of [main] *)

(** Spawn attempts made so far. *)
Definition spawned (w : World) : Z :=
  match main_pc w with
  | MStart | MRegister | MAlloc => 0
  | MSpawn i => i
  | MReturned c => if c =? EXIT_SUCCESS then num_threads (locals w) else 0
  | _ => num_threads (locals w)
  end.

(** The locals hold the configuration. *)
Definition configured (w : World) : bool :=
  match main_pc w with
  | MStart => false
  | MReturned c => c =? EXIT_SUCCESS
  | _ => true
  end.

(** The array of handles exists. *)
Definition allocated (w : World) : bool :=
  match main_pc w with
  | MStart | MRegister | MAlloc => false
  | MReturned c => c =? EXIT_SUCCESS
  | _ => true
  end.

(** [WaitForMultipleObjects] has returned. *)
Definition past_wait (w : World) : bool :=
  match main_pc w with
  | MClose _ | MFree => true
  | MReturned c => c =? EXIT_SUCCESS
  | _ => false
  end.

(** [main] has left the spawn loop. *)
Definition past_spawn_loop (w : World) : bool :=
  match main_pc w with
  | MSleep | MSetStop | MWait | MClose _ | MFree => true
  | MReturned c => c =? EXIT_SUCCESS
  | _ => false
  end.

(** The outcome of every [WaitForMultipleObjects] call of a trace: did it
    fail? *)
Definition wait_events (tr : list Event) : list bool :=
  omap (fun e => match e with
                 | CallWaitForMultipleObjects _ _ failed => Some failed
                 | _ => None
                 end) tr.

(** [CreateThread] fails for some index of the spawn loop. *)
Definition some_spawn_fails (inp : Input) (w : World) : Prop :=
  exists j, 0 <= j < num_threads (locals w) /\ CreateThread_ok inp j = false.

(** [CreateThread] succeeds for every index of the spawn loop. *)
Definition every_spawn_succeeds (inp : Input) (w : World) : Prop :=
  forall j, 0 <= j < num_threads (locals w) -> CreateThread_ok inp j = true.

(** What holds in every world a run reaches: the locals hold the clamped
    configuration; the spawn loop has called [CreateThread] for 0, 1, ... up
    to its counter; [threads] holds at each index the handle of the thread
    made for it, or [NULL] where the spawn failed; and the one wait, once
    made, succeeded only with every thread returned and failed whenever a
    spawn had failed. *)
Record Inv (inp : Input) (w : World) : Prop := {
  inv_cfg : configured w = true ->
            num_cpus (locals w) = available_processor_count (dwNumberOfProcessors inp) /\
            num_threads (locals w) =
              effective_thread_count (requested_thread_count inp) (num_cpus (locals w));
  inv_nt : 0 <= num_threads (locals w) <= INT_MAX;
  inv_spawned : 0 <= spawned w <= num_threads (locals w);
  inv_count : Z.of_nat (length (thread_table w)) <= spawned w;
  inv_len : allocated w = true ->
            length (threads (locals w)) = Z.to_nat (num_threads (locals w));
  inv_params : spawn_params (trace w) = seqZ 0 (spawned w);
  inv_table : forall k wk, thread_table w !! k = Some wk ->
              0 <= lpParam wk < spawned w /\
              CreateThread_ok inp (lpParam wk) = true /\
              threads (locals w) !! Z.to_nat (lpParam wk) = Some (handle_of k);
  inv_ok : forall j, 0 <= j < spawned w -> CreateThread_ok inp j = true ->
           exists k wk, threads (locals w) !! Z.to_nat j = Some (handle_of k) /\
                        thread_table w !! k = Some wk;
  inv_failed : forall j, 0 <= j < spawned w -> CreateThread_ok inp j = false ->
               threads (locals w) !! Z.to_nat j = Some 0;
  inv_wait : if past_wait w
             then exists failed, wait_events (trace w) = [failed] /\
                    (failed = false ->
                     Forall (fun wk => has_exited wk = true) (thread_table w)) /\
                    (failed = true -> every_spawn_succeeds inp w ->
                     MAXIMUM_WAIT_OBJECTS < num_threads (locals w)) /\
                    (some_spawn_fails inp w -> failed = true)
             else wait_events (trace w) = []
}.

(** ** Sample runs *)

(** A duration of 0. *)
Definition zero_duration : Input := all_ok ["0"%string] 2.

(** One thread on two processors, [main] about to store into the flag. *)
Definition at_the_store : World :=
  run (all_ok ["1"; "1"]%string 2)
      [ActMain; ActMain; ActMain; ActMain; ActMain; ActMain] initial_world.

(** A run of one thread up to the point where [main] has set the flag and
    the thread stands at its test. *)
Definition one_thread_run : Input := all_ok ["1"; "1"]%string 2.

Definition up_to_stop : list Action :=
  [ActMain; ActMain; ActMain; ActMain; ActMain; ActWorker 0; ActMain; ActMain].

(** A schedule for a run in which the second of two spawns fails: [main] up
    to its sleep, three turns of thread 0, [main] to its end. *)
Definition partial_spawn_schedule : list Action :=
  repeat ActMain 6 ++ [ActWorker 0; ActWorker 0; ActWorker 0] ++ repeat ActMain 7.

(** Two threads requested on two processors for ten seconds. *)
Definition partial_spawn : Input := second_spawn_fails ["10"; "2"]%string 2.

Definition after_partial_spawn : World :=
  run partial_spawn partial_spawn_schedule initial_world.

(** ** The origin of the flag *)

(** [main] has made its store into the flag. *)
Definition past_store (w : World) : bool :=
  match main_pc w with
  | MWait | MClose _ | MFree => true
  | MReturned c => c =? EXIT_SUCCESS
  | _ => false
  end.

(** Where the flag can come from, and what a returned thread tells. *)
Record FlagInv (inp : Input) (w : World) : Prop := {
  fi_bit : g_stop_flag w = 0 \/ g_stop_flag w = 1;
  fi_store : past_store w = true -> g_stop_flag w = 1;
  fi_origin : g_stop_flag w = 1 ->
              past_store w = true \/ handler_installed w = true;
  fi_installed : handler_installed w = true ->
                 SetConsoleCtrlHandler_ok inp = true /\
                 main_pc w <> MStart /\ main_pc w <> MRegister;
  fi_exited : forall k wk r, thread_table w !! k = Some wk ->
              w_pc wk = WDone r -> r = 0 /\ g_stop_flag w = 1
}.

(** ** The outputs along the path of [main] *)

Definition sleep_events (tr : list Event) : list Z :=
  omap (fun e => match e with CallSleep ms => Some ms | _ => None end) tr.

Definition free_calls (tr : list Event) : list unit :=
  omap (fun e => match e with CallFree => Some tt | _ => None end) tr.

(** [Sleep] has returned. *)
Definition past_sleep (w : World) : bool :=
  match main_pc w with
  | MSetStop | MWait | MClose _ | MFree => true
  | MReturned c => c =? EXIT_SUCCESS
  | _ => false
  end.

Definition returned_ok (w : World) : bool :=
  match main_pc w with MReturned c => c =? EXIT_SUCCESS | _ => false end.

(** There is an [argv[1]] and [atoi] reads it as positive. *)
Definition duration_ok (inp : Input) : bool :=
  match args inp with
  | argv1 :: _ => 0 <? atoi argv1
  | [] => false
  end.

(** What standard output holds at each program point of [main]. *)
Definition stdout_at (inp : Input) (w : World) : list string :=
  match main_pc w with
  | MStart => []
  | MReturned c =>
      if c =? EXIT_SUCCESS then [banner (locals w); finished_message]
      else if duration_ok inp then [banner (locals w)] else []
  | _ => [banner (locals w)]
  end.

Record PathInv (inp : Input) (w : World) : Prop := {
  pi_duration : configured w = true ->
                exists argv1 rest, args inp = argv1 :: rest /\
                  duration (locals w) = atoi argv1 /\ 0 < atoi argv1;
  pi_sleep : sleep_events (trace w) =
             if past_sleep w
             then [to_DWORD (to_DWORD (duration (locals w)) * 1000)] else [];
  pi_stdout : stdout_of (trace w) = stdout_at inp w;
  pi_free : free_calls (trace w) = if returned_ok w then [tt] else [];
  pi_code : forall c, main_pc w = MReturned c ->
            c = EXIT_SUCCESS \/
            (c = EXIT_FAILURE /\ (duration_ok inp = false \/ calloc_ok inp = false))
}.

(** ** Handles *)

Definition closed_handles (tr : list Event) : list Z :=
  omap (fun e => match e with CallCloseHandle h => Some h | _ => None end) tr.

(** The handles the successful [CreateThread] calls of a trace returned. *)
Definition created_handles (tr : list Event) : list Z :=
  omap (fun e => match e with
                 | CallCreateThread _ h => if h =? 0 then None else Some h
                 | _ => None
                 end) tr.

Definition nonnull (h : Z) : bool := negb (h =? 0).

(** Entries of [threads] the closing loop has gone through. *)
Definition closing (w : World) : Z :=
  match main_pc w with
  | MClose i => i
  | MFree => num_threads (locals w)
  | MReturned c => if c =? EXIT_SUCCESS then num_threads (locals w) else 0
  | _ => 0
  end.

Record HandleInv (inp : Input) (w : World) : Prop := {
  hi_closing : 0 <= closing w <= num_threads (locals w);
  hi_created : created_handles (trace w)
               = handle_of <$> seq 0 (length (thread_table w));
  hi_array : List.filter nonnull (take (Z.to_nat (spawned w)) (threads (locals w)))
             = handle_of <$> seq 0 (length (thread_table w));
  hi_closed : closed_handles (trace w)
              = List.filter nonnull (take (Z.to_nat (closing w)) (threads (locals w)));
  hi_params : lpParam <$> thread_table w
              = List.filter (CreateThread_ok inp) (seqZ 0 (spawned w))
}.

(** ** More sample inputs *)

(** As [all_ok], but [calloc] returns [NULL]. *)
Definition calloc_fails (argv : list string) (ncpu : Z) : Input :=
  {| argv0 := "cpu_stress.exe"; args := argv; dwNumberOfProcessors := ncpu;
     SetConsoleCtrlHandler_ok := true; calloc_ok := false;
     CreateThread_ok := fun _ => true; CreateThread_err := fun _ => 0;
     SetThreadAffinityMask_old := fun _ => 1;
     SetThreadAffinityMask_err := fun _ => 0 |}.

(** As [all_ok], but every pinning fails with error 87. *)
Definition pinning_fails (argv : list string) (ncpu : Z) : Input :=
  {| argv0 := "cpu_stress.exe"; args := argv; dwNumberOfProcessors := ncpu;
     SetConsoleCtrlHandler_ok := true; calloc_ok := true;
     CreateThread_ok := fun _ => true; CreateThread_err := fun _ => 0;
     SetThreadAffinityMask_old := fun _ => 0;
     SetThreadAffinityMask_err := fun _ => 87 |}.

(** ** Pinning calls *)

(** The masks of the [SetThreadAffinityMask] calls thread [k] made. *)
Definition affinity_calls (k : nat) (tr : list Event) : list Z :=
  omap (fun e => match e with
                 | CallSetThreadAffinityMask k' m =>
                     if Nat.eqb k' k then Some m else None
                 | _ => None
                 end) tr.

(** The pinning thread [k] has asked for, if it has had its first turn. *)
Definition pinned_mask (w : World) (k : nat) : list Z :=
  match thread_table w !! k with
  | Some wk => match w_pc wk with WEntry => [] | _ => [affinity_mask wk] end
  | None => []
  end.

(** * Properties *)

(** ** Integers and the runtime *)

Lemma to_int_range z : INT_MIN <= to_int z <= INT_MAX.
Proof. unfold to_int, INT_MIN, INT_MAX. pose proof (Z.mod_pos_bound (z + 2147483648) 4294967296). lia. Qed.

Lemma to_int_id z : INT_MIN <= z <= INT_MAX -> to_int z = z.
Proof.
  unfold to_int, INT_MIN, INT_MAX. intros H.
  rewrite Z.mod_small by lia. lia.
Qed.

Lemma saturate_range z : INT_MIN <= saturate z <= INT_MAX.
Proof.
  unfold saturate, INT_MIN, INT_MAX.
  destruct (Z.ltb_spec z (-2147483648)); [lia|].
  destruct (Z.ltb_spec 2147483647 z); lia.
Qed.

Lemma atoi_range s : INT_MIN <= atoi s <= INT_MAX.
Proof.
  unfold atoi. destruct (skip_space s) as [|c s']; [apply saturate_range|].
  destruct c as [[] [] [] [] [] [] [] []]; apply saturate_range.
Qed.

(** A string whose first character is no white space, no sign and no digit
    is read as 0. *)
Lemma atoi_non_numeric c s :
  isspace c = false -> digit_of c = None ->
  c <> "-"%char -> c <> "+"%char ->
  atoi (String c s) = 0.
Proof.
  intros Hs Hd Hm Hp. unfold atoi. simpl skip_space. rewrite Hs.
  assert (H0 : saturate (digits_value 0 (String c s)) = 0)
    by (simpl; rewrite Hd; reflexivity).
  destruct c as [[] [] [] [] [] [] [] []]; try exact H0; congruence.
Qed.

Lemma atoi_empty : atoi "" = 0.
Proof. reflexivity. Qed.

Lemma available_processor_count_range dw :
  1 <= available_processor_count dw <= INT_MAX.
Proof.
  unfold available_processor_count. pose proof (to_int_range dw) as H.
  destruct (Z.ltb_spec (to_int dw) 1); unfold INT_MAX in *; lia.
Qed.

Lemma argc_lt_2 inp : argc inp < 2 <-> args inp = [].
Proof. unfold argc. destruct (args inp); simpl; split; intros; try lia; congruence. Qed.

(** ** The configuration *)

Lemma effective_thread_count_range requested dw :
  1 <= effective_thread_count requested (available_processor_count dw)
    <= available_processor_count dw.
Proof.
  pose proof (available_processor_count_range dw) as Hc.
  unfold effective_thread_count.
  destruct requested as [r|];
    repeat match goal with
           | |- context [if ?b then _ else _] => destruct b eqn:?
           end; lia.
Qed.

(** C2: whatever integer is requested (or none) and whatever processor count
    the system reports, the thread count [main] computes lies between 1 and
    [num_cpus]; a request of 0 or less gives 1, a request above [num_cpus]
    gives [num_cpus], no request gives [num_cpus]. *)
Theorem effective_thread_count_clamped (requested : option Z) (dw : Z) :
  let ncpus := available_processor_count dw in
  let n := effective_thread_count requested ncpus in
  1 <= n <= ncpus /\
  (requested = None -> n = ncpus) /\
  (forall r, requested = Some r -> r <= 0 -> n = 1) /\
  (forall r, requested = Some r -> ncpus < r -> n = ncpus).
Proof.
  intros ncpus n. pose proof (available_processor_count_range dw) as Hc.
  fold ncpus in Hc. subst n. unfold effective_thread_count.
  split; [apply effective_thread_count_range|]. repeat split.
  - intros ->. destruct (Z.leb_spec ncpus 0); [lia|].
    destruct (Z.ltb_spec ncpus ncpus); lia.
  - intros r -> Hr. destruct (Z.leb_spec r 0); [|lia].
    destruct (Z.ltb_spec ncpus 1); lia.
  - intros r -> Hr. destruct (Z.leb_spec r 0); [lia|].
    destruct (Z.ltb_spec ncpus r); lia.
Qed.

Lemma effective_thread_count_clamped_witness :
  effective_thread_count (Some 99) (available_processor_count 8) = 8 /\
  effective_thread_count (Some (-3)) (available_processor_count 8) = 1 /\
  effective_thread_count None (available_processor_count 8) = 8.
Proof.
  destruct (effective_thread_count_clamped (Some 99) 8) as (_ & _ & _ & Hhi).
  destruct (effective_thread_count_clamped (Some (-3)) 8) as (_ & _ & Hlo & _).
  destruct (effective_thread_count_clamped None 8) as (_ & Hnone & _).
  split; [|split].
  - rewrite (Hhi 99 eq_refl); [reflexivity | vm_compute; reflexivity].
  - apply (Hlo (-3) eq_refl). lia.
  - apply Hnone. reflexivity.
Defined.

(** What the first step of [main] leaves in its locals when the duration is
    accepted. *)
Lemma main_configures inp argv1 rest :
  args inp = argv1 :: rest -> 0 < atoi argv1 ->
  let w := main inp initial_world in
  main_pc w = MRegister /\
  duration (locals w) = atoi argv1 /\
  num_cpus (locals w) = available_processor_count (dwNumberOfProcessors inp) /\
  num_threads (locals w) =
    effective_thread_count (requested_thread_count inp) (num_cpus (locals w)) /\
  trace w = [Stdout (banner (locals w))].
Proof.
  intros Ha Hd. unfold main. simpl. rewrite Ha.
  destruct (Z.leb_spec (atoi argv1) 0); [lia|]. simpl. auto.
Qed.

(** ** Rejected command lines *)

Lemma run_app inp s1 s2 w : run inp (s1 ++ s2) w = run inp s2 (run inp s1 w).
Proof. unfold run. apply foldl_app. Qed.

Lemma run_snoc inp s a w : run inp (s ++ [a]) w = step inp a (run inp s w).
Proof. rewrite run_app. reflexivity. Qed.

Lemma run_cons inp a s w : run inp (a :: s) w = run inp s (step inp a w).
Proof. reflexivity. Qed.

Lemma step_gone inp a w : process_gone w = true -> step inp a w = w.
Proof. intros H. unfold step. rewrite H. reflexivity. Qed.

Lemma process_gone_run inp sched w : process_gone w = true -> run inp sched w = w.
Proof.
  intros H. induction sched as [|a sched IH]; [reflexivity|].
  rewrite run_cons, step_gone by exact H. exact IH.
Qed.

(** Before the first step of [main] there is no thread and no installed
    handler, so no other action changes anything. *)
Lemma step_initial inp a :
  step inp a initial_world = initial_world \/
  step inp a initial_world = main inp initial_world.
Proof.
  destruct a as [|k|c]; [right; reflexivity|left|left]; unfold step; simpl.
  - reflexivity.
  - reflexivity.
Qed.

(** C5, as the code has it: with no duration argument [main] writes the
    usage line to standard error, with a duration that [atoi] reads as 0 or
    less it writes "Duracao invalida" there; in both cases this is its only
    output, it returns [EXIT_FAILURE], no [CreateThread] call was made and no
    thread exists, and nothing runs afterwards, whatever the schedule. *)
Theorem bad_duration_fails_before_any_thread (inp : Input) (sched : list Action) :
  missing_duration inp \/ non_positive_duration inp ->
  let w := run inp (ActMain :: sched) initial_world in
  exit_code w = Some EXIT_FAILURE /\
  thread_table w = [] /\
  spawn_params (trace w) = [] /\
  (missing_duration inp -> trace w = [Stderr (usage_message inp)]) /\
  (non_positive_duration inp -> trace w = [Stderr invalid_duration_message]).
Proof.
  intros H w.
  assert (Hw : w = main inp initial_world
               /\ process_gone (main inp initial_world) = true
               /\ ((missing_duration inp /\
                    main inp initial_world =
                      set_pc (MReturned EXIT_FAILURE)
                        (emit [Stderr (usage_message inp)] initial_world))
                   \/ (non_positive_duration inp /\
                       main inp initial_world =
                         set_pc (MReturned EXIT_FAILURE)
                           (emit [Stderr invalid_duration_message] initial_world)))).
  { assert (Hg : process_gone (main inp initial_world) = true /\
             ((missing_duration inp /\
                    main inp initial_world =
                      set_pc (MReturned EXIT_FAILURE)
                        (emit [Stderr (usage_message inp)] initial_world))
                   \/ (non_positive_duration inp /\
                       main inp initial_world =
                         set_pc (MReturned EXIT_FAILURE)
                           (emit [Stderr invalid_duration_message] initial_world)))).
    { destruct H as [H | (a & rest & Ha & Hle)].
      - unfold main; simpl. rewrite H. split; [reflexivity|]. left. auto.
      - unfold main; simpl. rewrite Ha.
        destruct (Z.leb_spec (atoi a) 0); [|lia].
        split; [reflexivity|]. right. split; [exists a, rest; auto | reflexivity]. }
    destruct Hg as [Hg Hm]. split; [|split; assumption].
    subst w. rewrite run_cons.
    change (step inp ActMain initial_world) with (main inp initial_world).
    apply process_gone_run. exact Hg. }
  destruct Hw as (-> & _ & Hm).
  assert (Hex : forall a rest, args inp = a :: rest -> missing_duration inp -> False).
  { unfold missing_duration. intros a rest -> ?. discriminate. }
  destruct Hm as [[Hmiss ->] | [Hnp ->]]; simpl; repeat split; try reflexivity.
  - intros (a & rest & Ha & _). destruct (Hex a rest Ha Hmiss).
  - destruct Hnp as (a & rest & Ha & _). intros Hmiss. destruct (Hex a rest Ha Hmiss).
Qed.

Lemma bad_duration_fails_before_any_thread_witness :
  trace (run (all_ok ["-5"; "2"]%string 4) [ActMain; ActMain; ActWorker 0] initial_world)
  = [Stderr invalid_duration_message].
Proof.
  refine (proj2 (proj2 (proj2 (proj2
    (bad_duration_fails_before_any_thread (all_ok ["-5"; "2"]%string 4)
       [ActMain; ActWorker 0] _)))) _).
  - right. exists "-5"%string, ["2"%string]. split; [reflexivity | vm_compute; discriminate].
  - exists "-5"%string, ["2"%string]. split; [reflexivity | vm_compute; discriminate].
Defined.

(** C5 as the specification words it fails: a duration of 0 gets the message
    "Duracao invalida", and the usage line is not written. *)
Lemma non_positive_duration_prints_no_usage :
  non_positive_duration zero_duration /\
  exit_code (run zero_duration [ActMain] initial_world) = Some EXIT_FAILURE /\
  stderr_of (trace (run zero_duration [ActMain] initial_world))
  = [invalid_duration_message] /\
  ~ In (usage_message zero_duration)
       (stderr_of (trace (run zero_duration [ActMain] initial_world))).
Proof.
  split; [|split; [|split]].
  - exists "0"%string, []. split; [reflexivity | vm_compute; discriminate].
  - reflexivity.
  - reflexivity.
  - vm_compute. intros [H | []]. discriminate H.
Qed.

(** ** The control handler *)

(** C7: for each of the four termination events the handler stores 1 in
    [g_stop_flag], answers [TRUE] and leaves the rest of the world as it was
    (no output, no system call, no thread created or advanced, [main] and its
    locals untouched); for any other event it answers [FALSE] and leaves the
    whole world as it was. *)
Theorem ConsoleCtrlHandler_only_sets_stop (ctrl_type : Z) (w : World) :
  let w' := fst (ConsoleCtrlHandler ctrl_type w) in
  let ret := snd (ConsoleCtrlHandler ctrl_type w) in
  (is_termination_event ctrl_type ->
     g_stop_flag w' = 1 /\ ret = TRUE /\
     trace w' = trace w /\ thread_table w' = thread_table w /\
     main_pc w' = main_pc w /\ locals w' = locals w /\
     handler_installed w' = handler_installed w /\
     flag_reads w' = flag_reads w) /\
  (~ is_termination_event ctrl_type -> w' = w /\ ret = FALSE).
Proof.
  unfold is_termination_event, ConsoleCtrlHandler,
    CTRL_C_EVENT, CTRL_BREAK_EVENT, CTRL_CLOSE_EVENT, CTRL_SHUTDOWN_EVENT.
  cbv zeta. split.
  - intros H.
    assert (Hb : (ctrl_type =? 0) || (ctrl_type =? 1) || (ctrl_type =? 2)
                 || (ctrl_type =? 6) = true).
    { destruct H as [-> | [-> | [-> | ->]]]; reflexivity. }
    rewrite Hb. simpl. repeat split.
  - intros H.
    destruct (Z.eqb_spec ctrl_type 0); [tauto|].
    destruct (Z.eqb_spec ctrl_type 1); [tauto|].
    destruct (Z.eqb_spec ctrl_type 2); [tauto|].
    destruct (Z.eqb_spec ctrl_type 6); [tauto|].
    simpl. split; reflexivity.
Qed.

Lemma ConsoleCtrlHandler_only_sets_stop_witness :
  g_stop_flag (fst (ConsoleCtrlHandler CTRL_CLOSE_EVENT initial_world)) = 1 /\
  fst (ConsoleCtrlHandler CTRL_LOGOFF_EVENT initial_world) = initial_world.
Proof.
  split.
  - apply (proj1 (ConsoleCtrlHandler_only_sets_stop CTRL_CLOSE_EVENT initial_world)).
    right; right; left; reflexivity.
  - apply (proj2 (ConsoleCtrlHandler_only_sets_stop CTRL_LOGOFF_EVENT initial_world)).
    unfold is_termination_event. vm_compute. intros [H|[H|[H|H]]]; discriminate H.
Defined.

(** ** The stop flag *)

Ltac break_match :=
  repeat match goal with
         | |- context [match ?x with _ => _ end] => destruct x eqn:?
         end.

(** [main] writes the flag at one program point only, and writes 1. *)
Lemma main_flag inp w :
  g_stop_flag (main inp w) =
  match main_pc w with MSetStop => 1 | _ => g_stop_flag w end.
Proof. unfold main. break_match; reflexivity. Qed.

Lemma main_flag_reads inp w : flag_reads (main inp w) = flag_reads w.
Proof. unfold main. break_match; reflexivity. Qed.

(** A worker never writes the flag. *)
Lemma worker_step_flag inp k w : g_stop_flag (worker_step inp k w) = g_stop_flag w.
Proof. unfold worker_step. break_match; reflexivity. Qed.

Lemma worker_step_flag_reads inp k w :
  flag_reads (worker_step inp k w) = flag_reads w \/
  flag_reads (worker_step inp k w) = flag_reads w ++ [g_stop_flag w].
Proof. unfold worker_step. break_match; simpl; auto. Qed.

Lemma handler_flag c w :
  g_stop_flag (fst (ConsoleCtrlHandler c w)) = g_stop_flag w \/
  g_stop_flag (fst (ConsoleCtrlHandler c w)) = 1.
Proof. unfold ConsoleCtrlHandler. break_match; simpl; auto. Qed.

Lemma handler_flag_reads c w :
  flag_reads (fst (ConsoleCtrlHandler c w)) = flag_reads w.
Proof. unfold ConsoleCtrlHandler. break_match; reflexivity. Qed.

(** Every step keeps the flag or stores 1 in it. *)
Lemma step_flag inp a w :
  g_stop_flag (step inp a w) = g_stop_flag w \/ g_stop_flag (step inp a w) = 1.
Proof.
  unfold step. destruct (process_gone w); [auto|].
  destruct a as [|k|c].
  - rewrite main_flag. destruct (main_pc w); auto.
  - rewrite worker_step_flag. auto.
  - destruct (handler_installed w); [apply handler_flag | auto].
Qed.

Lemma step_flag_reads inp a w :
  flag_reads (step inp a w) = flag_reads w \/
  flag_reads (step inp a w) = flag_reads w ++ [g_stop_flag w].
Proof.
  unfold step. destruct (process_gone w); [auto|].
  destruct a as [|k|c].
  - rewrite main_flag_reads. auto.
  - apply worker_step_flag_reads.
  - destruct (handler_installed w); [rewrite handler_flag_reads|]; auto.
Qed.

Lemma run_flag_stays inp sched w :
  g_stop_flag w = 1 -> g_stop_flag (run inp sched w) = 1.
Proof.
  revert w. induction sched as [|a sched IH]; intros w H; [exact H|].
  rewrite run_cons. apply IH. destruct (step_flag inp a w) as [-> | ->]; auto.
Qed.

Lemma flag_history_step inp a w :
  flag_history_ok w -> flag_history_ok (step inp a w).
Proof.
  intros (Hv & n & m & Hr & Hm). split.
  - destruct (step_flag inp a w) as [-> | ->]; auto.
  - destruct (step_flag_reads inp a w) as [-> | ->].
    + exists n, m. split; [exact Hr|]. intros H.
      destruct (step_flag inp a w) as [-> | ->]; auto.
    + destruct Hv as [H0 | H1].
      * assert (m = 0%nat) as -> by (destruct m; [reflexivity | exfalso; lia]).
        exists (S n), 0%nat. rewrite Hr, H0. simpl. rewrite !app_nil_r.
        split; [|intros []; reflexivity].
        change (replicate n 0 ++ [0]) with (replicate n 0 ++ replicate 1 0).
        rewrite <- replicate_add. replace (n + 1)%nat with (S n) by lia. reflexivity.
      * exists n, (S m). rewrite Hr, H1. split.
        -- rewrite <- app_assoc. f_equal.
           change [1] with (replicate 1 1). rewrite <- replicate_add.
           replace (m + 1)%nat with (S m) by lia. reflexivity.
        -- intros _. destruct (step_flag inp a w) as [-> | ->]; auto.
Qed.

Lemma flag_history_run inp sched w :
  flag_history_ok w -> flag_history_ok (run inp sched w).
Proof.
  revert w. induction sched as [|a sched IH]; intros w H; [exact H|].
  rewrite run_cons. apply IH, flag_history_step, H.
Qed.

Lemma flag_history_initial : flag_history_ok initial_world.
Proof.
  split; [left; reflexivity|]. exists 0%nat, 0%nat. split; [reflexivity|].
  intros []; reflexivity.
Qed.

(** C3: the flag is 0 when the process starts; along every schedule it is
    0 or 1, every step keeps it or stores 1, once it is 1 it is 1 after any
    further actions, and the values the workers read are 0s followed by 1s:
    no reader sees 0 after some reader saw 1. *)
Theorem stop_flag_monotonic (inp : Input) (before after : list Action) :
  let w1 := run inp before initial_world in
  let w2 := run inp (before ++ after) initial_world in
  g_stop_flag initial_world = 0 /\
  (g_stop_flag w1 = 0 \/ g_stop_flag w1 = 1) /\
  (forall a, g_stop_flag (step inp a w1) = g_stop_flag w1 \/
             g_stop_flag (step inp a w1) = 1) /\
  (g_stop_flag w1 = 1 -> g_stop_flag w2 = 1) /\
  (exists n m : nat, flag_reads w2 = replicate n 0 ++ replicate m 1).
Proof.
  intros w1 w2. split; [reflexivity|]. split; [|split; [|split]].
  - apply (flag_history_run inp before initial_world flag_history_initial).
  - intros a. apply step_flag.
  - intros H. subst w2. rewrite run_app. apply run_flag_stays, H.
  - destruct (flag_history_run inp (before ++ after) initial_world
                flag_history_initial) as (_ & n & m & Hr & _).
    exists n, m. exact Hr.
Qed.

(** A store of 1 into a flag that is 1 changes nothing. *)
Lemma set_flag_same w : g_stop_flag w = 1 -> InterlockedExchange_stop w = w.
Proof. destruct w; simpl; intros ->; reflexivity. Qed.

Lemma handler_after_stop c w :
  g_stop_flag w = 1 -> fst (ConsoleCtrlHandler c w) = w.
Proof.
  intros H. unfold ConsoleCtrlHandler. break_match; simpl; [|reflexivity].
  apply set_flag_same, H.
Qed.

Lemma step_ctrl_after_stop inp c w :
  g_stop_flag w = 1 -> step inp (ActCtrl c) w = w.
Proof.
  intros H. unfold step. break_match; try reflexivity.
  apply handler_after_stop, H.
Qed.

Lemma handler_main_pc c w : main_pc (fst (ConsoleCtrlHandler c w)) = main_pc w.
Proof. unfold ConsoleCtrlHandler. break_match; reflexivity. Qed.

Lemma main_at_set_stop inp w :
  main_pc w = MSetStop -> main inp w = set_pc MWait (InterlockedExchange_stop w).
Proof. intros H. unfold main. rewrite H. reflexivity. Qed.

Lemma main_store_absorbs_handler inp c w :
  main_pc w = MSetStop ->
  step inp ActMain (step inp (ActCtrl c) w) = step inp ActMain w.
Proof.
  intros Hpc. unfold step, process_gone. rewrite Hpc.
  destruct (handler_installed w); [|rewrite Hpc; reflexivity].
  rewrite handler_main_pc, Hpc.
  rewrite !main_at_set_stop by (rewrite ?handler_main_pc; exact Hpc).
  unfold ConsoleCtrlHandler. break_match; reflexivity.
Qed.

(** C9: storing the stop value twice is storing it once.  The store itself
    is idempotent; a control event that arrives when the flag is already 1
    leaves the whole world as it is, so every schedule goes on as without
    it; and where [main] is about to store, a handler run just before or
    just after that store leads to the same world as the store alone, hence
    to the same outputs and exit code under every continuation. *)
Theorem stop_store_idempotent (inp : Input) (w : World) (c : Z)
    (sched : list Action) :
  InterlockedExchange_stop (InterlockedExchange_stop w) = InterlockedExchange_stop w /\
  (g_stop_flag w = 1 ->
     InterlockedExchange_stop w = w /\
     run inp (ActCtrl c :: sched) w = run inp sched w) /\
  (main_pc w = MSetStop ->
     run inp (ActCtrl c :: ActMain :: sched) w = run inp (ActMain :: sched) w /\
     run inp (ActMain :: ActCtrl c :: sched) w = run inp (ActMain :: sched) w).
Proof.
  split; [reflexivity|]. split.
  - intros H. split; [apply set_flag_same, H|].
    rewrite run_cons, step_ctrl_after_stop by exact H. reflexivity.
  - intros Hpc. split.
    + rewrite !run_cons, main_store_absorbs_handler by exact Hpc. reflexivity.
    + rewrite !run_cons. rewrite step_ctrl_after_stop; [reflexivity|].
      unfold step, process_gone. rewrite Hpc. rewrite main_flag, Hpc. reflexivity.
Qed.

Lemma stop_store_idempotent_witness :
  main_pc at_the_store = MSetStop /\
  run (all_ok ["1"; "1"]%string 2)
      [ActCtrl CTRL_C_EVENT; ActMain; ActWorker 0] at_the_store
  = run (all_ok ["1"; "1"]%string 2) [ActMain; ActWorker 0] at_the_store.
Proof.
  assert (H : main_pc at_the_store = MSetStop) by (vm_compute; reflexivity).
  split; [exact H|].
  exact (proj1 (proj2 (proj2 (stop_store_idempotent (all_ok ["1"; "1"]%string 2)
    at_the_store CTRL_C_EVENT [ActWorker 0])) H)).
Defined.

(** ** Workers after the stop *)

(** [main] leaves the thread table alone or appends a thread at its entry. *)
Lemma main_table inp w :
  thread_table (main inp w) = thread_table w \/
  exists p, thread_table (main inp w)
            = thread_table w ++ [{| lpParam := p; w_pc := WEntry |}].
Proof. unfold main. break_match; simpl; eauto. Qed.

Lemma handler_table c w :
  thread_table (fst (ConsoleCtrlHandler c w)) = thread_table w.
Proof. unfold ConsoleCtrlHandler. break_match; reflexivity. Qed.

Lemma worker_step_table inp k w wk :
  thread_table w !! k = Some wk ->
  thread_table (worker_step inp k w)
  = <[k := {| lpParam := lpParam wk;
              w_pc := fst (worker_thread inp k (g_stop_flag w) wk) |}]>
      (thread_table w).
Proof.
  intros H. unfold worker_step. rewrite H.
  destruct (worker_thread inp k (g_stop_flag w) wk) as [pc' es].
  destruct (reads_flag (w_pc wk)); reflexivity.
Qed.

Lemma worker_step_none inp k w :
  thread_table w !! k = None -> worker_step inp k w = w.
Proof. intros H. unfold worker_step. rewrite H. reflexivity. Qed.

(** What an action does to the entry of thread [k]: nothing, unless it is a
    turn of [k] in a live process. *)
Lemma step_thread inp a w k wk :
  thread_table w !! k = Some wk ->
  thread_table (step inp a w) !! k =
  Some (if is_turn_of k a && negb (process_gone w)
        then {| lpParam := lpParam wk;
                w_pc := fst (worker_thread inp k (g_stop_flag w) wk) |}
        else wk).
Proof.
  intros H. unfold step. destruct (process_gone w) eqn:Hg.
  { rewrite andb_false_r. exact H. }
  rewrite andb_true_r. destruct a as [|k'|c]; simpl.
  - destruct (main_table inp w) as [-> | [p ->]]; [exact H|].
    rewrite lookup_app_l; [exact H | eapply lookup_lt_Some, H].
  - destruct (Nat.eqb_spec k' k) as [-> | Hne].
    + rewrite (worker_step_table _ _ _ _ H).
      apply list_lookup_insert_eq. eapply lookup_lt_Some, H.
    + destruct (thread_table w !! k') as [wk'|] eqn:Hk'.
      * rewrite (worker_step_table _ _ _ _ Hk').
        rewrite list_lookup_insert_ne by exact Hne. exact H.
      * rewrite worker_step_none by exact Hk'. exact H.
  - destruct (handler_installed w); [rewrite handler_table|]; exact H.
Qed.

(** One step of a worker in its loop, the flag set. *)
Lemma worker_thread_stopping inp k flag wk :
  flag <> 0 -> loop_or_done (w_pc wk) = true ->
  let pc' := fst (worker_thread inp k flag wk) in
  loop_or_done pc' = true /\
  exit_pc pc' = exit_pc (w_pc wk) /\
  steps_to_exit pc' = Nat.pred (steps_to_exit (w_pc wk)) /\
  batch_left pc' + (match w_pc wk with
                    | WBatch i _ => if i <? BATCH then 1 else 0
                    | _ => 0
                    end) = batch_left (w_pc wk) /\
  snd (worker_thread inp k flag wk) = [].
Proof.
  intros Hf Hl. unfold worker_thread. destruct (w_pc wk) as [|x|i x|r]; simpl.
  - discriminate Hl.
  - destruct (Z.eqb_spec flag 0); [contradiction|]. simpl. auto.
  - destruct (Z.ltb_spec i BATCH); simpl; unfold BATCH in *;
      repeat split; try reflexivity; lia.
  - auto.
Qed.

Lemma worker_step_trace inp k w wk :
  thread_table w !! k = Some wk ->
  trace (worker_step inp k w)
  = trace w ++ snd (worker_thread inp k (g_stop_flag w) wk).
Proof.
  intros H. unfold worker_step. rewrite H.
  destruct (worker_thread inp k (g_stop_flag w) wk) as [pc' es].
  destruct (reads_flag (w_pc wk)); reflexivity.
Qed.

Lemma process_gone_step inp a w :
  process_gone (step inp a w) = false -> process_gone w = false.
Proof.
  destruct (process_gone w) eqn:Hg; [|reflexivity].
  rewrite step_gone by exact Hg. rewrite Hg. discriminate.
Qed.

Lemma process_gone_run_false inp sched w :
  process_gone (run inp sched w) = false -> process_gone w = false.
Proof.
  destruct (process_gone w) eqn:Hg; [|reflexivity].
  rewrite process_gone_run by exact Hg. rewrite Hg. discriminate.
Qed.

(** Along any schedule from a world whose flag is set, a thread that is in
    its loop stays in it or returns; its iterations add up to what was left
    of its batch; each of its turns brings it one step closer to its
    return. *)
Lemma run_stopping inp k sched :
  forall w wk,
    g_stop_flag w = 1 -> thread_table w !! k = Some wk ->
    loop_or_done (w_pc wk) = true ->
    exists wk',
      thread_table (run inp sched w) !! k = Some wk' /\
      lpParam wk' = lpParam wk /\
      loop_or_done (w_pc wk') = true /\
      exit_pc (w_pc wk') = exit_pc (w_pc wk) /\
      iterations inp k sched w + batch_left (w_pc wk') = batch_left (w_pc wk) /\
      (process_gone (run inp sched w) = false ->
       steps_to_exit (w_pc wk') = (steps_to_exit (w_pc wk) - turns k sched)%nat).
Proof.
  induction sched as [|a sched IH]; intros w wk Hf Hk Hl.
  { exists wk. simpl. repeat split; auto. intros _. lia. }
  rewrite run_cons. pose proof (step_thread inp a w k wk Hk) as Hk'.
  assert (Hf' : g_stop_flag (step inp a w) = 1).
  { destruct (step_flag inp a w) as [-> | ->]; auto. }
  assert (Hne : g_stop_flag w <> 0) by lia.
  destruct (worker_thread_stopping inp k (g_stop_flag w) wk Hne Hl)
    as (Hl1 & He1 & Hs1 & Hb1 & _).
  simpl iterations. simpl turns. unfold iterations_in_step. rewrite Hk.
  destruct (is_turn_of k a && negb (process_gone w)) eqn:Hturn.
  - destruct (IH _ _ Hf' Hk' Hl1) as (wk' & Hk2 & Hp2 & Hl2 & He2 & Hb2 & Hs2).
    simpl in *. exists wk'. repeat split; auto; try congruence; try lia.
    intros Hg. rewrite (Hs2 Hg), Hs1.
    apply andb_true_iff in Hturn as [-> _]. lia.
  - destruct (IH _ _ Hf' Hk' Hl) as (wk' & Hk2 & Hp2 & Hl2 & He2 & Hb2 & Hs2).
    exists wk'. repeat split; auto; try lia.
    intros Hg. rewrite (Hs2 Hg).
    apply process_gone_run_false, process_gone_step in Hg.
    rewrite Hg, andb_true_r in Hturn. rewrite Hturn. lia.
Qed.

(** *** Batch counters stay in range *)

Lemma worker_thread_counter inp k flag wk :
  counter_ok wk ->
  counter_ok {| lpParam := lpParam wk; w_pc := fst (worker_thread inp k flag wk) |}.
Proof.
  unfold counter_ok, worker_thread.
  destruct (w_pc wk) as [|x|i x|r]; simpl; auto.
  - destruct (flag =? 0); simpl; unfold BATCH; lia.
  - destruct (Z.ltb_spec i BATCH); simpl; lia.
Qed.

Lemma step_counters inp a w :
  Forall counter_ok (thread_table w) -> Forall counter_ok (thread_table (step inp a w)).
Proof.
  intros H. unfold step. destruct (process_gone w); [exact H|].
  destruct a as [|k|c].
  - destruct (main_table inp w) as [-> | [p ->]]; [exact H|].
    apply Forall_app. split; [exact H|]. repeat constructor.
  - destruct (thread_table w !! k) as [wk|] eqn:Hk.
    + rewrite (worker_step_table _ _ _ _ Hk).
      apply Forall_insert; [exact H|].
      apply worker_thread_counter. eapply Forall_lookup_1; eauto.
    + rewrite worker_step_none by exact Hk. exact H.
  - destruct (handler_installed w); [rewrite handler_table|]; exact H.
Qed.

Lemma run_counters inp sched w :
  Forall counter_ok (thread_table w) ->
  Forall counter_ok (thread_table (run inp sched w)).
Proof.
  revert w. induction sched as [|a sched IH]; intros w H; [exact H|].
  rewrite run_cons. apply IH, step_counters, H.
Qed.

Lemma turns_repeat k n : turns k (repeat (ActWorker k) n) = n.
Proof.
  induction n as [|n IH]; [reflexivity|].
  simpl. rewrite Nat.eqb_refl, IH. reflexivity.
Qed.

Lemma worker_step_main_pc inp k w : main_pc (worker_step inp k w) = main_pc w.
Proof. unfold worker_step. break_match; reflexivity. Qed.

(** Turns of a thread do not end the process. *)
Lemma worker_turns_keep_alive inp k n :
  forall w, process_gone (run inp (repeat (ActWorker k) n) w) = process_gone w.
Proof.
  induction n as [|n IH]; intros w; [reflexivity|].
  simpl repeat. rewrite run_cons, IH.
  unfold step. destruct (process_gone w) eqn:Hg; [exact Hg|].
  unfold process_gone in *. rewrite worker_step_main_pc. exact Hg.
Qed.

(** C6: take any world the program reaches in which the flag is set and a
    thread is inside its loop.  Then a turn of that thread writes nothing and
    calls nothing; whatever the schedule from there, the thread executes no
    more than the rest of the batch it is in, at most 100000 iterations, and
    starts no other batch; as soon as it has had the turns that rest takes
    plus two, at most 100002, in a process that is still alive, it has
    returned 0; and giving it these turns in a row does just that. *)
Theorem worker_exits_within_one_batch (inp : Input) (before sched : list Action)
    (k : nat) (wk : Worker) :
  let w := run inp before initial_world in
  g_stop_flag w = 1 ->
  thread_table w !! k = Some wk ->
  in_loop (w_pc wk) = true ->
  let w' := run inp sched w in
  let returned := Some {| lpParam := lpParam wk; w_pc := WDone 0 |} in
  trace (step inp (ActWorker k) w) = trace w /\
  0 <= iterations inp k sched w <= batch_left (w_pc wk) /\
  batch_left (w_pc wk) <= BATCH /\
  (steps_to_exit (w_pc wk) <= Z.to_nat BATCH + 2)%nat /\
  (process_gone w' = false ->
   (steps_to_exit (w_pc wk) <= turns k sched)%nat ->
   thread_table w' !! k = returned) /\
  (process_gone w = false ->
   thread_table (run inp (repeat (ActWorker k) (steps_to_exit (w_pc wk))) w) !! k
   = returned).
Proof.
  intros w Hf Hk Hin w' returned.
  assert (Hl : loop_or_done (w_pc wk) = true) by (destruct (w_pc wk); auto; discriminate).
  assert (Hc : counter_ok wk).
  { eapply Forall_lookup_1; [|exact Hk].
    apply run_counters. constructor. }
  assert (Hexit : forall s, process_gone (run inp s w) = false ->
                  (steps_to_exit (w_pc wk) <= turns k s)%nat ->
                  thread_table (run inp s w) !! k = returned).
  { intros s Hg Ht.
    destruct (run_stopping inp k s w wk Hf Hk Hl) as (wk' & Hk' & Hp & _ & He & _ & Hs).
    rewrite Hk'. subst returned. f_equal.
    specialize (Hs Hg).
    assert (H0 : steps_to_exit (w_pc wk') = 0%nat) by lia.
    destruct wk' as [p' pc']. simpl in *. subst p'. f_equal.
    destruct pc' as [|x|i x|r]; simpl in H0; try lia.
    simpl in He. destruct (w_pc wk); simpl in He; try discriminate Hin; exact He. }
  destruct (run_stopping inp k sched w wk Hf Hk Hl)
    as (wk' & Hk' & Hp & Hl' & He & Hb & Hs).
  split; [|split; [|split; [|split; [|split]]]].
  - unfold step. destruct (process_gone w); [reflexivity|].
    rewrite (worker_step_trace _ _ _ _ Hk).
    assert (Hne : g_stop_flag w <> 0) by lia.
    destruct (worker_thread_stopping inp k (g_stop_flag w) wk Hne Hl)
      as (_ & _ & _ & _ & ->).
    apply app_nil_r.
  - assert (0 <= batch_left (w_pc wk')).
    { unfold batch_left. destruct (w_pc wk'); lia. }
    split; [|lia].
    clear - w. generalize w. induction sched as [|a s IH]; intros w0; simpl; [lia|].
    specialize (IH (step inp a w0)).
    unfold iterations_in_step. break_match; lia.
  - unfold counter_ok in Hc. unfold batch_left.
    destruct (w_pc wk); unfold BATCH in *; lia.
  - unfold counter_ok in Hc. unfold steps_to_exit.
    destruct (w_pc wk); unfold BATCH in *; lia.
  - apply Hexit.
  - intros Hg. apply Hexit.
    + rewrite worker_turns_keep_alive. exact Hg.
    + rewrite turns_repeat. lia.
Qed.

Lemma worker_exits_within_one_batch_witness :
  thread_table (run one_thread_run [ActWorker 0]
                  (run one_thread_run up_to_stop initial_world)) !! 0%nat
  = Some {| lpParam := 0; w_pc := WDone 0 |}.
Proof.
  assert (Hf : g_stop_flag (run one_thread_run up_to_stop initial_world) = 1)
    by (vm_compute; reflexivity).
  assert (Hk : thread_table (run one_thread_run up_to_stop initial_world) !! 0%nat
               = Some {| lpParam := 0; w_pc := WCheck 1.23456789%float |})
    by (vm_compute; reflexivity).
  assert (Hg : process_gone (run one_thread_run [ActWorker 0]
                  (run one_thread_run up_to_stop initial_world)) = false)
    by (vm_compute; reflexivity).
  apply (proj1 (proj2 (proj2 (proj2 (proj2
    (worker_exits_within_one_batch one_thread_run up_to_stop [ActWorker 0] 0%nat
       {| lpParam := 0; w_pc := WCheck 1.23456789%float |} Hf Hk eq_refl))))) Hg).
  simpl. lia.
Defined.

(** ** The spawn loop and the join *)

Lemma inv_initial inp : Inv inp initial_world.
Proof.
  constructor; unfold spawned, INT_MAX; simpl;
    try discriminate; try reflexivity; try lia; intros j ?; lia.
Qed.

Lemma inv_threads_range inp w :
  Inv inp w -> configured w = true ->
  1 <= num_threads (locals w) <= num_cpus (locals w) /\
  num_cpus (locals w) <= INT_MAX.
Proof.
  intros I Hc. destruct (inv_cfg _ _ I Hc) as [Hn Ht].
  pose proof (effective_thread_count_range (requested_thread_count inp)
                (dwNumberOfProcessors inp)) as H.
  pose proof (available_processor_count_range (dwNumberOfProcessors inp)).
  rewrite <- Hn in *. rewrite <- Ht in H. lia.
Qed.

(** *** The invariant is kept by every step *)

Lemma worker_thread_events inp k flag wk :
  spawn_params (snd (worker_thread inp k flag wk)) = [] /\
  wait_events (snd (worker_thread inp k flag wk)) = [].
Proof. unfold worker_thread. break_match; simpl; auto. Qed.

Lemma worker_thread_exited inp k flag wk :
  has_exited wk = true ->
  has_exited {| lpParam := lpParam wk; w_pc := fst (worker_thread inp k flag wk) |} = true.
Proof. unfold has_exited, worker_thread. simpl. destruct (w_pc wk); simpl; auto; discriminate. Qed.

Lemma worker_step_frame inp k w :
  main_pc (worker_step inp k w) = main_pc w /\
  locals (worker_step inp k w) = locals w.
Proof. unfold worker_step. break_match; simpl; auto. Qed.

Lemma spawn_params_app t1 t2 : spawn_params (t1 ++ t2) = spawn_params t1 ++ spawn_params t2.
Proof. apply omap_app. Qed.

Lemma wait_events_app t1 t2 : wait_events (t1 ++ t2) = wait_events t1 ++ wait_events t2.
Proof. apply omap_app. Qed.

Lemma same_main_spawned w w' :
  main_pc w' = main_pc w -> locals w' = locals w -> spawned w' = spawned w.
Proof. unfold spawned. intros -> ->. reflexivity. Qed.

Lemma same_main_configured w w' : main_pc w' = main_pc w -> configured w' = configured w.
Proof. unfold configured. intros ->. reflexivity. Qed.

Lemma same_main_allocated w w' : main_pc w' = main_pc w -> allocated w' = allocated w.
Proof. unfold allocated. intros ->. reflexivity. Qed.

Lemma same_main_past_wait w w' : main_pc w' = main_pc w -> past_wait w' = past_wait w.
Proof. unfold past_wait. intros ->. reflexivity. Qed.

Lemma inv_worker inp k w : Inv inp w -> Inv inp (worker_step inp k w).
Proof.
  intros I. destruct (thread_table w !! k) as [wk|] eqn:Hk;
    [|rewrite worker_step_none by exact Hk; exact I].
  destruct (worker_step_frame inp k w) as [Hpc Hl].
  pose proof (worker_step_table inp k w wk Hk) as Ht.
  pose proof (worker_step_trace inp k w wk Hk) as Htr.
  destruct (worker_thread_events inp k (g_stop_flag w) wk) as [Hsp Hwe].
  destruct I as [Icfg Int Isp Icnt Ilen Ipar Itab Iok Ifail Iwait].
  constructor; unfold some_spawn_fails, every_spawn_succeeds in *;
    rewrite ?(same_main_spawned _ _ Hpc Hl), ?(same_main_configured _ _ Hpc),
      ?(same_main_allocated _ _ Hpc), ?(same_main_past_wait _ _ Hpc),
      ?Hl, ?Htr, ?Ht, ?spawn_params_app, ?wait_events_app, ?Hsp, ?Hwe, ?app_nil_r,
      ?length_insert; auto.
  - intros k' wk' H. apply list_lookup_insert_Some in H as [(<- & <- & Hlt) | (Hne & H)]; simpl.
    + apply Itab, Hk.
    + apply Itab, H.
  - intros j Hj Hok. destruct (Iok j Hj Hok) as (k' & wk' & H1 & H2).
    destruct (decide (k = k')) as [<- | Hne].
    + eexists k, _. split; [exact H1|]. apply list_lookup_insert_eq. eapply lookup_lt_Some, Hk.
    + exists k', wk'. split; [exact H1|]. rewrite list_lookup_insert_ne by exact Hne. exact H2.
  - destruct (past_wait w); [|exact Iwait].
    destruct Iwait as (f & H1 & H2 & H3 & H4). exists f. repeat split; auto.
    intros Hf. apply Forall_insert; [auto|]. apply worker_thread_exited.
    exact (Forall_lookup_1 _ _ _ _ (H2 Hf) Hk).
Qed.

Lemma handler_frame c w :
  main_pc (fst (ConsoleCtrlHandler c w)) = main_pc w /\
  locals (fst (ConsoleCtrlHandler c w)) = locals w /\
  trace (fst (ConsoleCtrlHandler c w)) = trace w /\
  thread_table (fst (ConsoleCtrlHandler c w)) = thread_table w.
Proof. unfold ConsoleCtrlHandler. break_match; simpl; auto. Qed.

Lemma inv_handler inp c w : Inv inp w -> Inv inp (fst (ConsoleCtrlHandler c w)).
Proof.
  intros I. destruct (handler_frame c w) as (Hpc & Hl & Htr & Ht).
  destruct I as [Icfg Int Isp Icnt Ilen Ipar Itab Iok Ifail Iwait].
  constructor; unfold some_spawn_fails, every_spawn_succeeds in *;
    rewrite ?(same_main_spawned _ _ Hpc Hl), ?(same_main_configured _ _ Hpc),
      ?(same_main_allocated _ _ Hpc), ?(same_main_past_wait _ _ Hpc),
      ?Hl, ?Htr, ?Ht; auto.
Qed.

Lemma inv_frame inp w w' :
  locals w' = locals w -> thread_table w' = thread_table w ->
  (exists es, trace w' = trace w ++ es /\ spawn_params es = [] /\ wait_events es = []) ->
  spawned w' = spawned w ->
  (configured w' = true -> configured w = true) ->
  (allocated w' = true -> allocated w = true) ->
  past_wait w' = past_wait w ->
  Inv inp w -> Inv inp w'.
Proof.
  intros Hl Ht (es & Htr & Hsp & Hwe) Hs Hc Ha Hp I.
  destruct I as [Icfg Int Isp Icnt Ilen Ipar Itab Iok Ifail Iwait].
  constructor; unfold some_spawn_fails, every_spawn_succeeds in *;
    rewrite ?Hs, ?Hp, ?Hl, ?Htr, ?Ht, ?spawn_params_app, ?wait_events_app,
      ?Hsp, ?Hwe, ?app_nil_r; auto.
Qed.

Ltac frame_trace :=
  first [ exists []; split; [symmetry; apply app_nil_r | split; reflexivity]
        | eexists; split; [reflexivity | split; reflexivity] ].

Ltac frame_step w I Hpc :=
  apply (inv_frame _ w); [ reflexivity | reflexivity | frame_trace
                    | unfold spawned; simpl; rewrite ?Hpc; try reflexivity
                    | unfold configured; simpl; rewrite ?Hpc; auto
                    | unfold allocated; simpl; rewrite ?Hpc; auto
                    | unfold past_wait; simpl; rewrite ?Hpc; auto
                    | exact I ].

Lemma inv_main_frames inp w :
  Inv inp w ->
  match main_pc w with
  | MRegister | MSleep | MSetStop | MFree | MReturned _ | MClose _ => Inv inp (main inp w)
  | _ => True
  end.
Proof.
  intros I. destruct (main_pc w) eqn:Hpc; try exact Logic.I; unfold main; rewrite Hpc.
  - destruct (SetConsoleCtrlHandler_ok inp); frame_step w I Hpc.
  - frame_step w I Hpc.
  - frame_step w I Hpc.
  - pose proof (inv_spawned _ _ I) as Hs. unfold spawned in Hs. rewrite Hpc in Hs.
    destruct (Z.ltb_spec i (num_threads (locals w))).
    + destruct (threads (locals w) !! Z.to_nat i) as [h|].
      * destruct (h =? 0); frame_step w I Hpc.
      * frame_step w I Hpc.
    + frame_step w I Hpc.
  - frame_step w I Hpc.
  - exact I.
Qed.

Ltac inv_easy Ipar Iwait Itab :=
  try (rewrite spawn_params_app, Ipar; reflexivity);
  try (rewrite wait_events_app, Iwait; reflexivity);
  try (intros k wk Hk; destruct (Itab k wk Hk) as [? _]; lia);
  try (intros j ?; lia).

Lemma inv_main_start inp w :
  Inv inp w -> main_pc w = MStart -> Inv inp (main inp w).
Proof.
  intros I Hpc. unfold main. rewrite Hpc.
  destruct (args inp) as [|argv1 rest]; [frame_step w I Hpc|].
  destruct (Z.leb_spec (atoi argv1) 0); [frame_step w I Hpc|].
  pose proof (effective_thread_count_range (requested_thread_count inp)
                (dwNumberOfProcessors inp)) as Hr.
  pose proof (available_processor_count_range (dwNumberOfProcessors inp)) as Ha.
  destruct I as [Icfg Int Isp Icnt Ilen Ipar Itab Iok Ifail Iwait].
  unfold spawned, past_wait in *. rewrite Hpc in *.
  constructor; unfold spawned, past_wait; simpl; auto; try lia; try discriminate;
    inv_easy Ipar Iwait Itab.
Qed.

Lemma inv_main_alloc inp w :
  Inv inp w -> main_pc w = MAlloc -> Inv inp (main inp w).
Proof.
  intros I Hpc. unfold main. rewrite Hpc.
  destruct (calloc_ok inp); [|frame_step w I Hpc].
  destruct I as [Icfg Int Isp Icnt Ilen Ipar Itab Iok Ifail Iwait].
  unfold spawned, past_wait, configured in *. rewrite Hpc in *.
  constructor; unfold spawned, past_wait, configured; simpl; auto; try lia;
    inv_easy Ipar Iwait Itab.
  intros _. apply length_replicate.
Qed.

Lemma seqZ_snoc i : 0 <= i -> seqZ 0 (i + 1) = seqZ 0 i ++ [i].
Proof. intros H. rewrite seqZ_app by lia. reflexivity. Qed.

Lemma inv_main_spawn inp w i :
  Inv inp w -> main_pc w = MSpawn i -> Inv inp (main inp w).
Proof.
  intros I Hpc. unfold main. rewrite Hpc.
  pose proof (inv_spawned _ _ I) as Hs. unfold spawned in Hs. rewrite Hpc in Hs.
  destruct (Z.ltb_spec i (num_threads (locals w))) as [Hlt|Hge].
  2: { apply (inv_frame _ w); try reflexivity; try exact I.
       - frame_trace.
       - unfold spawned; simpl; rewrite Hpc. lia.
       - unfold configured; simpl; rewrite ?Hpc; auto.
       - unfold allocated; simpl; rewrite ?Hpc; auto.
       - unfold past_wait; simpl; rewrite ?Hpc; auto. }
  destruct I as [Icfg Int Isp Icnt Ilen Ipar Itab Iok Ifail Iwait].
  unfold spawned, past_wait, configured, allocated in *. rewrite Hpc in *.
  specialize (Ilen eq_refl).
  assert (Hi : (Z.to_nat i < length (threads (locals w)))%nat) by lia.
  destruct (CreateThread_ok inp i) eqn:Hok.
  - constructor; unfold spawned, past_wait, configured, allocated; simpl; auto; try lia.
    + rewrite length_app. simpl. lia.
    + intros _. rewrite length_insert. exact Ilen.
    + rewrite spawn_params_app, Ipar, seqZ_snoc by lia. reflexivity.
    + intros k wk Hk. apply lookup_snoc_Some in Hk as [[Hlen Hk] | [-> <-]].
      * destruct (Itab k wk Hk) as (Hr & Hc & Ht). split; [lia|]. split; [exact Hc|].
        rewrite list_lookup_insert_ne by lia. exact Ht.
      * simpl. split; [lia|]. split; [exact Hok|].
        apply list_lookup_insert_eq. exact Hi.
    + intros j Hj Hc. destruct (decide (j = i)) as [-> | Hne].
      * eexists (length (thread_table w)), _. split.
        -- apply list_lookup_insert_eq. exact Hi.
        -- apply list_lookup_middle. reflexivity.
      * destruct (Iok j ltac:(lia) Hc) as (k & wk & H1 & H2). exists k, wk. split.
        -- rewrite list_lookup_insert_ne by lia. exact H1.
        -- rewrite lookup_app_l; [exact H2 | eapply lookup_lt_Some, H2].
    + intros j Hj Hc. destruct (decide (j = i)) as [-> | Hne]; [congruence|].
      rewrite list_lookup_insert_ne by lia. apply Ifail; [lia | exact Hc].
    + rewrite wait_events_app, Iwait. reflexivity.
  - constructor; unfold spawned, past_wait, configured, allocated; simpl; auto; try lia.
    + intros _. rewrite length_insert. exact Ilen.
    + rewrite spawn_params_app, Ipar, seqZ_snoc by lia. reflexivity.
    + intros k wk Hk. destruct (Itab k wk Hk) as (Hr & Hc & Ht).
      split; [lia|]. split; [exact Hc|].
      rewrite list_lookup_insert_ne by lia. exact Ht.
    + intros j Hj Hc. destruct (decide (j = i)) as [-> | Hne]; [congruence|].
      destruct (Iok j ltac:(lia) Hc) as (k & wk & H1 & H2). exists k, wk. split.
      * rewrite list_lookup_insert_ne by lia. exact H1.
      * exact H2.
    + intros j Hj Hc. destruct (decide (j = i)) as [-> | Hne].
      * apply list_lookup_insert_eq. exact Hi.
      * rewrite list_lookup_insert_ne by lia. apply Ifail; [lia | exact Hc].
    + rewrite wait_events_app, Iwait. reflexivity.
Qed.

Lemma thread_of_handle_of tbl k : thread_of_handle tbl (handle_of k) = tbl !! k.
Proof.
  unfold thread_of_handle, handle_of.
  destruct (Z.leb_spec (Z.of_nat k + 1) 0); [lia|].
  f_equal. lia.
Qed.

Lemma thread_of_handle_null tbl : thread_of_handle tbl 0 = None.
Proof. reflexivity. Qed.

Lemma to_DWORD_id z : 0 <= z <= INT_MAX -> to_DWORD z = z.
Proof. unfold to_DWORD, INT_MAX. intros H. apply Z.mod_small. lia. Qed.

(** What the call in [main] answers, by what the spawn loop left. *)
Lemma wait_result inp w :
  Inv inp w -> main_pc w = MWait ->
  match WaitForMultipleObjects (thread_table w)
          (to_DWORD (num_threads (locals w))) (threads (locals w)) with
  | WAIT_OBJECT_0 =>
      Forall (fun wk => has_exited wk = true) (thread_table w) /\
      ~ some_spawn_fails inp w
  | WAIT_FAILED =>
      every_spawn_succeeds inp w ->
      MAXIMUM_WAIT_OBJECTS < num_threads (locals w)
  | WaitBlocked => ~ some_spawn_fails inp w
  end.
Proof.
  intros I Hpc.
  assert (Hc : configured w = true) by (unfold configured; rewrite Hpc; reflexivity).
  destruct (inv_threads_range _ _ I Hc) as [Hn Hm].
  destruct I as [Icfg Int Isp Icnt Ilen Ipar Itab Iok Ifail Iwait].
  unfold spawned, allocated in *. rewrite Hpc in *. specialize (Ilen eq_refl).
  unfold WaitForMultipleObjects. rewrite to_DWORD_id by lia.
  rewrite take_ge by lia.
  assert (Hnofail :
    forallb (fun h => bool_decide (is_Some (thread_of_handle (thread_table w) h)))
            (threads (locals w)) = true ->
    ~ some_spawn_fails inp w).
  { intros Hv (j & Hj & Hf).
    pose proof (Ifail j Hj Hf) as H0.
    apply list_elem_of_lookup_2, list_elem_of_In in H0.
    pose proof (proj1 (forallb_forall _ _) Hv 0 H0) as Hb.
    cbv beta in Hb. rewrite thread_of_handle_null in Hb.
    apply bool_decide_eq_true in Hb.
    destruct Hb as [x Hx]. discriminate Hx. }
  destruct ((num_threads (locals w) <=? 0) || (MAXIMUM_WAIT_OBJECTS <? num_threads (locals w)))
    eqn:Hcond.
  { intros _. apply orb_true_iff in Hcond as [H | H]; [apply Z.leb_le in H; lia|].
    apply Z.ltb_lt in H. exact H. }
  destruct (forallb (fun h => bool_decide (is_Some (thread_of_handle (thread_table w) h)))
              (threads (locals w))) eqn:Hv.
  - destruct (forallb _ (threads (locals w))) eqn:He at 1.
    + split; [|apply (Hnofail eq_refl)].
      apply Forall_lookup. intros k wk Hk.
      destruct (Itab k wk Hk) as (_ & _ & Ht).
      apply list_elem_of_lookup_2, list_elem_of_In in Ht.
      pose proof (proj1 (forallb_forall _ _) He _ Ht) as Hb. cbv beta in Hb.
      rewrite thread_of_handle_of, Hk in Hb. exact Hb.
    + apply (Hnofail eq_refl).
  - intros Hall. exfalso.
    assert (Hv' : forallb (fun h => bool_decide (is_Some (thread_of_handle (thread_table w) h)))
              (threads (locals w)) = true).
    { apply forallb_forall. intros h Hin.
      apply list_elem_of_In, list_elem_of_lookup_1 in Hin as [j Hj].
      pose proof (lookup_lt_Some _ _ _ Hj) as Hlt.
      assert (Hr : 0 <= Z.of_nat j < num_threads (locals w)) by lia.
      destruct (Iok (Z.of_nat j) Hr (Hall _ Hr)) as (k & wk & H1 & H2).
      rewrite Nat2Z.id, Hj in H1. injection H1 as ->.
      rewrite thread_of_handle_of, H2. apply bool_decide_eq_true. eauto. }
    congruence.
Qed.

Lemma inv_main_wait inp w :
  Inv inp w -> main_pc w = MWait -> Inv inp (main inp w).
Proof.
  intros I Hpc. pose proof (wait_result inp w I Hpc) as Hw.
  unfold main. rewrite Hpc.
  destruct (WaitForMultipleObjects _ _ _); [| |exact I];
    destruct I as [Icfg Int Isp Icnt Ilen Ipar Itab Iok Ifail Iwait];
    unfold spawned, past_wait, configured, allocated in *; rewrite Hpc in *;
    (constructor; unfold spawned, past_wait, configured, allocated,
       some_spawn_fails, every_spawn_succeeds in *; simpl; auto; try lia;
     [ rewrite spawn_params_app, Ipar; simpl; apply app_nil_r
     | rewrite wait_events_app, Iwait; simpl; eexists; split; [reflexivity|] ]).
  - destruct Hw as [He Hn]. repeat split; auto; try discriminate.
  - repeat split; auto; discriminate.
Qed.

Lemma inv_main inp w : Inv inp w -> Inv inp (main inp w).
Proof.
  intros I. pose proof (inv_main_frames inp w I) as Hf.
  destruct (main_pc w) eqn:Hpc; try exact Hf.
  - apply inv_main_start; assumption.
  - apply inv_main_alloc; assumption.
  - eapply inv_main_spawn; eassumption.
  - apply inv_main_wait; assumption.
Qed.

Lemma inv_step inp a w : Inv inp w -> Inv inp (step inp a w).
Proof.
  intros I. unfold step. destruct (process_gone w); [exact I|].
  destruct a as [|k|c].
  - apply inv_main, I.
  - apply inv_worker, I.
  - destruct (handler_installed w); [apply inv_handler, I | exact I].
Qed.

Lemma inv_run inp sched w : Inv inp w -> Inv inp (run inp sched w).
Proof.
  revert w. induction sched as [|a sched IH]; intros w I; [exact I|].
  rewrite run_cons. apply IH, inv_step, I.
Qed.

Lemma inv_reachable inp sched : Inv inp (run inp sched initial_world).
Proof. apply inv_run, inv_initial. Qed.

(** *** Consequences *)

Lemma past_spawn_loop_spawned w :
  past_spawn_loop w = true ->
  spawned w = num_threads (locals w) /\ configured w = true.
Proof.
  unfold past_spawn_loop, spawned, configured.
  destruct (main_pc w); try discriminate; auto.
  intros ->. auto.
Qed.

Lemma spawned_pos_configured w : 0 < spawned w -> configured w = true.
Proof.
  unfold spawned, configured. destruct (main_pc w); try lia; auto.
  destruct (code =? EXIT_SUCCESS); [auto | lia].
Qed.

Lemma unconfigured_spawned w : configured w = false -> spawned w = 0.
Proof.
  unfold spawned, configured. destruct (main_pc w); try discriminate; auto.
  intros ->. reflexivity.
Qed.




(** ** Arguments that are not numbers *)

Lemma run_after_return inp sched :
  process_gone (main inp initial_world) = true ->
  run inp (ActMain :: sched) initial_world = main inp initial_world.
Proof. intros H. rewrite run_cons. apply process_gone_run, H. Qed.

Lemma main_rejects_duration inp argv1 rest :
  args inp = argv1 :: rest -> atoi argv1 <= 0 ->
  main inp initial_world
  = set_pc (MReturned EXIT_FAILURE)
      (emit [Stderr invalid_duration_message] initial_world).
Proof.
  intros Ha Hd. unfold main. simpl. rewrite Ha.
  destruct (Z.leb_spec (atoi argv1) 0); [reflexivity | lia].
Qed.

Lemma requested_second_argument inp argv1 argv2 rest :
  args inp = argv1 :: argv2 :: rest ->
  requested_thread_count inp = Some (atoi argv2).
Proof.
  intros Ha. unfold requested_thread_count, argc. rewrite Ha.
  destruct (Z.leb_spec 3 (1 + Z.of_nat (length (argv1 :: argv2 :: rest))));
    [reflexivity | simpl length in *; lia].
Qed.

Lemma effective_thread_count_zero ncpus :
  1 <= ncpus -> effective_thread_count (Some 0) ncpus = 1.
Proof.
  intros H. unfold effective_thread_count. simpl.
  destruct (Z.ltb_spec ncpus 1); [lia | reflexivity].
Qed.

(** ** The join *)

(** X2: a failed spawn leaves [NULL] in the array, and the wait on an array
    with a [NULL] in it fails at once: [main] goes on whatever the workers
    are doing. *)
Lemma wait_fails_after_failed_spawn inp sched :
  let w := run inp sched initial_world in
  main_pc w = MWait -> some_spawn_fails inp w ->
  main_pc (main inp w) = MClose 0 /\
  wait_events (trace (main inp w)) = [true].
Proof.
  intros w Hpc Hf. pose proof (inv_reachable inp sched) as I. fold w in I.
  pose proof (wait_result inp w I Hpc) as Hw.
  pose proof (inv_wait _ _ I) as Hnone. unfold past_wait in Hnone. rewrite Hpc in Hnone.
  unfold main. rewrite Hpc.
  destruct (WaitForMultipleObjects _ _ _).
  - destruct Hw as [_ Hn]. destruct (Hn Hf).
  - simpl. rewrite wait_events_app, Hnone. split; reflexivity.
  - destruct (Hw Hf).
Qed.

(** X1: when every spawn succeeds and no more than [MAXIMUM_WAIT_OBJECTS]
    processors are reported, [main] gets past its wait, and so returns, only
    once every thread has returned. *)
Lemma join_waits_when_every_spawn_succeeds inp sched :
  (forall j, CreateThread_ok inp j = true) ->
  available_processor_count (dwNumberOfProcessors inp) <= MAXIMUM_WAIT_OBJECTS ->
  let w := run inp sched initial_world in
  past_wait w = true ->
  Forall (fun wk => has_exited wk = true) (thread_table w).
Proof.
  intros Hall Hcpu w Hpw. pose proof (inv_reachable inp sched) as I. fold w in I.
  pose proof (inv_wait _ _ I) as Hw. rewrite Hpw in Hw.
  destruct Hw as (failed & _ & Hok & Hbad & _).
  assert (Hc : configured w = true).
  { unfold past_wait in Hpw. unfold configured. destruct (main_pc w); auto; discriminate. }
  destruct (inv_cfg _ _ I Hc) as [E1 _].
  destruct (inv_threads_range _ _ I Hc) as [Hr _].
  destruct failed; [|apply Hok; reflexivity].
  assert (MAXIMUM_WAIT_OBJECTS < num_threads (locals w)); [|lia].
  apply Hbad; [reflexivity|]. intros j _. apply Hall.
Qed.

(** C1 on that run: both spawns were attempted, the array holds one handle
    and one [NULL], the wait failed, [main] has written both of its lines
    and returned [EXIT_SUCCESS], and the one thread that was spawned has not
    returned: it is inside its first batch. *)
Theorem main_returns_while_worker_runs :
  spawn_params (trace after_partial_spawn) = [0; 1] /\
  threads (locals after_partial_spawn) = [1; 0] /\
  wait_events (trace after_partial_spawn) = [true] /\
  exit_code after_partial_spawn = Some EXIT_SUCCESS /\
  stdout_of (trace after_partial_spawn)
  = [banner (locals after_partial_spawn); finished_message] /\
  (exists x, thread_table after_partial_spawn
             = [{| lpParam := 0; w_pc := WBatch 1 x |}]) /\
  Forall (fun wk => has_exited wk = false) (thread_table after_partial_spawn).
Proof.
  repeat split; try (vm_compute; reflexivity).
  - eexists. vm_compute. reflexivity.
  - vm_compute. repeat constructor.
Qed.

(** ** Further properties of the run *)

(** *** The origin of the flag *)

Lemma flag_inv_main inp w : FlagInv inp w -> FlagInv inp (main inp w).
Proof.
  intros [Hb Hs Ho Hi He]. unfold main.
  destruct (main_pc w) eqn:Hpc; unfold past_store in *; rewrite ?Hpc in *;
    break_match; constructor; simpl; unfold past_store; simpl; rewrite ?Hpc; auto;
    try discriminate; try tauto.
  all: try (intros k wk r Hk; eapply He; eauto; fail).
  all: try (intros H; destruct (Hi H) as (? & _); repeat split; auto; discriminate).
  - intros k wk r Hk. apply lookup_snoc_Some in Hk as [[_ Hk] | [_ <-]].
    + eapply He; eauto.
    + discriminate.
  - intros k wk r Hk Hr. split; [|reflexivity]. eapply He; eauto.
Qed.

Lemma flag_inv_worker inp k w : FlagInv inp w -> FlagInv inp (worker_step inp k w).
Proof.
  intros I. destruct (thread_table w !! k) as [wk|] eqn:Hk;
    [|rewrite worker_step_none by exact Hk; exact I].
  destruct (worker_step_frame inp k w) as [Hpc Hl].
  pose proof (worker_step_table inp k w wk Hk) as Ht.
  pose proof (worker_step_flag inp k w) as Hf.
  assert (Hin : handler_installed (worker_step inp k w) = handler_installed w).
  { unfold worker_step. break_match; reflexivity. }
  destruct I as [Hb Hs Ho Hi He].
  constructor; unfold past_store in *; rewrite ?Hpc, ?Hf, ?Hin, ?Ht; auto.
  intros k' wk' r H Hr.
  apply list_lookup_insert_Some in H as [(<- & <- & Hlt) | (Hne & H)]; [|eapply He; eauto].
  simpl in Hr. unfold worker_thread in Hr.
  destruct (w_pc wk) as [|x|i x|r0] eqn:Hw; simpl in Hr.
  - discriminate.
  - destruct (Z.eqb_spec (g_stop_flag w) 0); simpl in Hr; [discriminate|].
    injection Hr as <-. split; [reflexivity | lia].
  - destruct (i <? BATCH); discriminate.
  - injection Hr as <-. eapply He; eauto.
Qed.

Lemma flag_inv_handler inp c w :
  handler_installed w = true ->
  FlagInv inp w -> FlagInv inp (fst (ConsoleCtrlHandler c w)).
Proof.
  intros Hinst [Hb Hs Ho Hi He]. unfold ConsoleCtrlHandler.
  break_match; [|constructor; auto].
  constructor; simpl; auto.
  intros k wk r Hk Hr. split; [|reflexivity]. eapply He; eauto.
Qed.

Lemma flag_inv_step inp a w : FlagInv inp w -> FlagInv inp (step inp a w).
Proof.
  intros I. unfold step. destruct (process_gone w); [exact I|].
  destruct a as [|k|c].
  - apply flag_inv_main, I.
  - apply flag_inv_worker, I.
  - destruct (handler_installed w) eqn:Hh; [apply flag_inv_handler; assumption | exact I].
Qed.

Lemma flag_inv_reachable inp sched : FlagInv inp (run inp sched initial_world).
Proof.
  assert (H : forall w, FlagInv inp w -> FlagInv inp (run inp sched w)).
  { induction sched as [|a sched IH]; intros w I; [exact I|].
    rewrite run_cons. apply IH, flag_inv_step, I. }
  apply H. constructor; simpl; auto; try discriminate.
Qed.

(** *** The outputs along the path of [main] *)

Lemma path_inv_main inp w : PathInv inp w -> PathInv inp (main inp w).
Proof.
  intros [Hd Hsl Hso Hf Hc]. unfold main.
  destruct (main_pc w) eqn:Hpc;
    unfold past_sleep, returned_ok, configured, stdout_at in *;
    rewrite ?Hpc in *;
    break_match; constructor; simpl;
    unfold past_sleep, returned_ok, configured, stdout_at,
      sleep_events, free_calls, stdout_of in *; simpl;
    rewrite ?omap_app, ?Hsl, ?Hso, ?Hf; simpl; rewrite ?Hpc; auto;
    try discriminate; try tauto.
  all: unfold duration_ok in *.
  all: try (intros c [= <-]; first [ left; reflexivity | right; split; [reflexivity|] ]).
  all: repeat match goal with H : args _ = _ |- _ => rewrite H in *; clear H end.
  all: repeat match goal with
              | H : (_ <=? _) = true |- _ => apply Z.leb_le in H
              | H : (_ <=? _) = false |- _ => apply Z.leb_gt in H
              end.
  all: try (left; first [ reflexivity | apply Z.ltb_ge; lia ]).
  all: try (right; assumption).
  all: try (match goal with |- context [0 <? ?x] => destruct (Z.ltb_spec 0 x) end;
            [lia | reflexivity]).
  - reflexivity.
  - intros _. eexists _, _. split; [reflexivity|]. split; [reflexivity | assumption].
  - destruct (Hd eq_refl) as (a & rest & -> & _ & Hp).
    destruct (Z.ltb_spec 0 (atoi a)); [reflexivity | lia].
Qed.

Lemma worker_events_silent inp k flag wk :
  let es := snd (worker_thread inp k flag wk) in
  sleep_events es = [] /\ free_calls es = [] /\ stdout_of es = [].
Proof. unfold worker_thread. break_match; simpl; auto. Qed.

Lemma path_inv_worker inp k w : PathInv inp w -> PathInv inp (worker_step inp k w).
Proof.
  intros I. destruct (thread_table w !! k) as [wk|] eqn:Hk;
    [|rewrite worker_step_none by exact Hk; exact I].
  destruct (worker_step_frame inp k w) as [Hpc Hl].
  pose proof (worker_step_trace inp k w wk Hk) as Htr.
  destruct (worker_events_silent inp k (g_stop_flag w) wk) as (E1 & E2 & E3).
  destruct I as [Hd Hsl Hso Hf Hc].
  constructor;
    unfold past_sleep, returned_ok, configured, stdout_at in *;
    rewrite ?Hpc, ?Hl, ?Htr; auto.
  - unfold sleep_events in *. rewrite omap_app, E1, app_nil_r. exact Hsl.
  - unfold stdout_of in *. rewrite omap_app, E3, app_nil_r. exact Hso.
  - unfold free_calls in *. rewrite omap_app, E2, app_nil_r. exact Hf.
Qed.

Lemma path_inv_handler inp c w :
  PathInv inp w -> PathInv inp (fst (ConsoleCtrlHandler c w)).
Proof.
  intros I. destruct (handler_frame c w) as (Hpc & Hl & Htr & Ht).
  destruct I as [Hd Hsl Hso Hf Hc].
  constructor;
    unfold past_sleep, returned_ok, configured, stdout_at in *;
    rewrite ?Hpc, ?Hl, ?Htr; auto.
Qed.

Lemma path_inv_reachable inp sched : PathInv inp (run inp sched initial_world).
Proof.
  assert (H : forall w, PathInv inp w -> PathInv inp (run inp sched w)).
  { induction sched as [|a sched IH]; intros w I; [exact I|].
    rewrite run_cons. apply IH. unfold step.
    destruct (process_gone w); [exact I|]. destruct a as [|k|c].
    - apply path_inv_main, I.
    - apply path_inv_worker, I.
    - destruct (handler_installed w); [apply path_inv_handler, I | exact I]. }
  apply H. constructor; simpl; auto; discriminate.
Qed.

Lemma take_insert_snoc {A} (l : list A) i x :
  (i < length l)%nat -> take (S i) (<[i:=x]> l) = take i l ++ [x].
Proof.
  intros H. rewrite (take_S_r _ _ x) by (apply list_lookup_insert_eq; exact H).
  rewrite take_insert_ge by lia. reflexivity.
Qed.

(** *** Handles *)

Lemma filter_nonnull_snoc l h :
  List.filter nonnull (l ++ [h])
  = List.filter nonnull l ++ (if h =? 0 then [] else [h]).
Proof.
  rewrite List.filter_app. simpl. unfold nonnull.
  destruct (h =? 0); reflexivity.
Qed.

Lemma handles_snoc n :
  handle_of <$> seq 0 (S n) = (handle_of <$> seq 0 n) ++ [handle_of n].
Proof. rewrite seq_S, fmap_app. reflexivity. Qed.

Lemma handle_of_nonnull n : (handle_of n =? 0) = false.
Proof. unfold handle_of. apply Z.eqb_neq. lia. Qed.

Ltac bool_hyps :=
  repeat match goal with
         | H : (_ <? _) = true |- _ => apply Z.ltb_lt in H
         | H : (_ <? _) = false |- _ => apply Z.ltb_ge in H
         | H : (_ =? _) = true |- _ => apply Z.eqb_eq in H
         | H : (_ =? _) = false |- _ => apply Z.eqb_neq in H
         end.

Lemma handle_inv_main inp w :
  Inv inp w -> HandleInv inp w -> HandleInv inp (main inp w).
Proof.
  intros I [Hcl Hcr Har Hcd Hpa].
  pose proof (inv_spawned _ _ I) as Hs.
  pose proof (inv_len _ _ I) as Hlen.
  pose proof (inv_nt _ _ I) as Hnt.
  pose proof (effective_thread_count_range (requested_thread_count inp)
                (dwNumberOfProcessors inp)) as Hr.
  unfold main.
  destruct (main_pc w) eqn:Hpc;
    unfold closing, spawned, allocated in *; rewrite ?Hpc in *;
    break_match; constructor; simpl;
    unfold closing, spawned, closed_handles, created_handles in *; simpl;
    rewrite ?omap_app, ?Hcr, ?Hcd; simpl; rewrite ?Hpc, ?app_nil_r, ?take_0 in *; auto;
    try lia; bool_hyps.
  - rewrite handle_of_nonnull, length_app. simpl length.
    rewrite Nat.add_1_r, handles_snoc. reflexivity.
  - specialize (Hlen eq_refl).
    replace (Z.to_nat (i + 1)) with (S (Z.to_nat i)) by lia.
    rewrite take_insert_snoc by lia.
    rewrite filter_nonnull_snoc, handle_of_nonnull, Har, length_app. simpl length.
    rewrite Nat.add_1_r, handles_snoc. reflexivity.
  - rewrite fmap_app, Hpa, seqZ_snoc, List.filter_app by lia. simpl.
    match goal with H : CreateThread_ok _ _ = true |- _ => rewrite H end.
    reflexivity.
  - specialize (Hlen eq_refl).
    replace (Z.to_nat (i + 1)) with (S (Z.to_nat i)) by lia.
    rewrite take_insert_snoc by lia.
    rewrite filter_nonnull_snoc, Har. simpl. apply app_nil_r.
  - rewrite Hpa, seqZ_snoc, List.filter_app by lia. simpl.
    match goal with H : CreateThread_ok _ _ = false |- _ => rewrite H end.
    symmetry. apply app_nil_r.
  - replace (num_threads (locals w)) with i by lia. exact Har.
  - replace (num_threads (locals w)) with i by lia. exact Hpa.
  - replace (Z.to_nat (i + 1)) with (S (Z.to_nat i)) by lia.
    erewrite take_S_r by eassumption.
    rewrite filter_nonnull_snoc. subst. simpl. symmetry. apply app_nil_r.
  - replace (Z.to_nat (i + 1)) with (S (Z.to_nat i)) by lia.
    erewrite take_S_r by eassumption.
    rewrite filter_nonnull_snoc.
    match goal with H : ?z <> 0 |- _ => apply Z.eqb_neq in H; rewrite H end.
    reflexivity.
  - specialize (Hlen eq_refl).
    match goal with H : _ !! _ = None |- _ => apply lookup_ge_None in H end. lia.
  - replace (num_threads (locals w)) with i by lia. reflexivity.
Qed.

Lemma worker_events_no_handle inp k flag wk :
  closed_handles (snd (worker_thread inp k flag wk)) = [] /\
  created_handles (snd (worker_thread inp k flag wk)) = [].
Proof. unfold worker_thread. break_match; simpl; auto. Qed.

Lemma handle_inv_worker inp k w :
  HandleInv inp w -> HandleInv inp (worker_step inp k w).
Proof.
  intros I. destruct (thread_table w !! k) as [wk|] eqn:Hk;
    [|rewrite worker_step_none by exact Hk; exact I].
  destruct (worker_step_frame inp k w) as [Hpc Hl].
  pose proof (worker_step_table inp k w wk Hk) as Ht.
  pose proof (worker_step_trace inp k w wk Hk) as Htr.
  destruct (worker_events_no_handle inp k (g_stop_flag w) wk) as [E1 E2].
  destruct I as [Hcl Hcr Har Hcd Hpa].
  constructor; unfold closing, spawned in *;
    rewrite ?Hpc, ?Hl, ?Htr, ?Ht, ?length_insert; auto.
  - unfold created_handles in *. rewrite omap_app, E2, app_nil_r. exact Hcr.
  - unfold closed_handles in *. rewrite omap_app, E1, app_nil_r. exact Hcd.
  - rewrite list_fmap_insert. simpl. rewrite list_insert_id; [exact Hpa|].
    rewrite list_lookup_fmap, Hk. reflexivity.
Qed.

Lemma handle_inv_handler inp c w :
  HandleInv inp w -> HandleInv inp (fst (ConsoleCtrlHandler c w)).
Proof.
  intros I. destruct (handler_frame c w) as (Hpc & Hl & Htr & Ht).
  destruct I as [Hcl Hcr Har Hcd Hpa].
  constructor; unfold closing, spawned in *; rewrite ?Hpc, ?Hl, ?Htr, ?Ht; auto.
Qed.

Lemma handle_inv_reachable inp sched : HandleInv inp (run inp sched initial_world).
Proof.
  assert (H : forall w, Inv inp w -> HandleInv inp w ->
                        HandleInv inp (run inp sched w)).
  { induction sched as [|a sched IH]; intros w I H; [exact H|].
    rewrite run_cons. apply IH; [apply inv_step, I|]. unfold step.
    destruct (process_gone w); [exact H|]. destruct a as [|k|c].
    - apply handle_inv_main; assumption.
    - apply handle_inv_worker, H.
    - destruct (handler_installed w); [apply handle_inv_handler, H | exact H]. }
  apply H; [apply inv_initial|].
  constructor; unfold closing, spawned; simpl; auto; lia.
Qed.

(** *** What a run does, from its start to its exit *)

(** X3: a thread count that is given and lies between 1 and [num_cpus] is
    the one [main] uses, and with no second argument [main] uses
    [num_cpus]; the spawn loop then makes that many [CreateThread] calls. *)
Theorem thread_count_honoured (inp : Input) (sched : list Action) :
  let w := run inp sched initial_world in
  configured w = true ->
  (forall argv1 argv2 rest, args inp = argv1 :: argv2 :: rest ->
     1 <= atoi argv2 <= num_cpus (locals w) ->
     num_threads (locals w) = atoi argv2) /\
  (forall argv1, args inp = [argv1] ->
     num_threads (locals w) = num_cpus (locals w)) /\
  (past_spawn_loop w = true ->
   length (spawn_params (trace w)) = Z.to_nat (num_threads (locals w))).
Proof.
  intros w Hc. pose proof (inv_reachable inp sched) as I. fold w in I.
  destruct (inv_cfg _ _ I Hc) as [E1 E2].
  destruct (inv_threads_range _ _ I Hc) as [Hr _].
  split; [|split].
  - intros a1 a2 rest Ha Hin.
    rewrite E2, (requested_second_argument inp a1 a2 rest Ha).
    unfold effective_thread_count.
    destruct (Z.leb_spec (atoi a2) 0); [lia|].
    destruct (Z.ltb_spec (num_cpus (locals w)) (atoi a2)); [lia | reflexivity].
  - intros a1 Ha. rewrite E2 at 1.
    unfold requested_thread_count, argc. rewrite Ha. simpl.
    unfold effective_thread_count.
    destruct (Z.leb_spec (num_cpus (locals w)) 0); [lia|].
    destruct (Z.ltb_spec (num_cpus (locals w)) (num_cpus (locals w))); [lia | reflexivity].
  - intros Hp. destruct (past_spawn_loop_spawned w Hp) as [E _].
    rewrite (inv_params _ _ I), E. apply length_seqZ.
Qed.

Lemma thread_count_honoured_witness :
  num_threads (locals (run (all_ok ["5"; "3"]%string 8) [ActMain] initial_world)) = 3.
Proof.
  refine (proj1 (thread_count_honoured (all_ok ["5"; "3"]%string 8) [ActMain] eq_refl)
            "5"%string "3"%string [] eq_refl _).
  vm_compute. split; discriminate.
Defined.

(** X4: [Sleep] is called once, when the spawn loop is done, with
    [(DWORD)duration * 1000] computed in 32 bits: that is 1000 times the
    duration as long as the duration is at most 4294967 seconds, and less
    than that for every longer duration. *)
Theorem sleep_argument_wraps (inp : Input) (sched : list Action) :
  let w := run inp sched initial_world in
  past_sleep w = true ->
  exists argv1 rest,
    args inp = argv1 :: rest /\ 0 < atoi argv1 /\
    sleep_events (trace w) = [(atoi argv1 * 1000) mod 4294967296] /\
    (atoi argv1 <= 4294967 -> sleep_events (trace w) = [1000 * atoi argv1]) /\
    (4294967 < atoi argv1 ->
     (atoi argv1 * 1000) mod 4294967296 < 1000 * atoi argv1).
Proof.
  intros w Hp. pose proof (path_inv_reachable inp sched) as P. fold w in P.
  assert (Hc : configured w = true).
  { unfold past_sleep in Hp. unfold configured. destruct (main_pc w); auto; discriminate. }
  destruct (pi_duration _ _ P Hc) as (a & rest & Ha & Hd & Hpos).
  pose proof (atoi_range a) as Hr. unfold INT_MIN, INT_MAX in Hr.
  pose proof (pi_sleep _ _ P) as Hs. rewrite Hp, Hd in Hs.
  assert (E : to_DWORD (to_DWORD (atoi a) * 1000) = (atoi a * 1000) mod 4294967296).
  { unfold to_DWORD. rewrite (Z.mod_small (atoi a)) by lia. reflexivity. }
  rewrite E in Hs.
  exists a, rest. split; [exact Ha|]. split; [exact Hpos|]. split; [exact Hs|]. split.
  - intros Hle. rewrite Hs, Z.mod_small by lia. f_equal. lia.
  - intros Hgt. pose proof (Z.mod_pos_bound (atoi a * 1000) 4294967296). lia.
Qed.

Lemma sleep_argument_wraps_witness :
  sleep_events (trace (run (all_ok ["4294968"%string] 1) (repeat ActMain 6) initial_world))
  = [704].
Proof.
  destruct (sleep_argument_wraps (all_ok ["4294968"%string] 1) (repeat ActMain 6) eq_refl)
    as (a & rest & Ha & _ & Hs & _).
  injection Ha as <- _. exact Hs.
Defined.

(** X5: when [main] returns anything but [EXIT_SUCCESS] it returns
    [EXIT_FAILURE], and it does so because the duration was missing or not
    positive or because [calloc] failed; no [CreateThread] call was made, no
    thread exists, there was no sleep, no wait and no handle closed, and
    standard output holds the banner alone (after a valid duration) or
    nothing. *)
Theorem failed_exit_is_before_any_thread (inp : Input) (sched : list Action) (c : Z) :
  let w := run inp sched initial_world in
  exit_code w = Some c -> c <> EXIT_SUCCESS ->
  c = EXIT_FAILURE /\
  (duration_ok inp = false \/ calloc_ok inp = false) /\
  thread_table w = [] /\
  spawn_params (trace w) = [] /\
  sleep_events (trace w) = [] /\
  wait_events (trace w) = [] /\
  closed_handles (trace w) = [] /\
  free_calls (trace w) = [] /\
  stdout_of (trace w) = (if duration_ok inp then [banner (locals w)] else []).
Proof.
  intros w Hx Hne.
  pose proof (inv_reachable inp sched) as I.
  pose proof (path_inv_reachable inp sched) as P.
  pose proof (handle_inv_reachable inp sched) as H.
  fold w in I, P, H.
  unfold exit_code in Hx. destruct (main_pc w) as [| | | | | | | | |c'] eqn:Hpc;
    try discriminate. injection Hx as ->.
  assert (Hb : (c =? EXIT_SUCCESS) = false) by (apply Z.eqb_neq; exact Hne).
  destruct (pi_code _ _ P c Hpc) as [-> | [-> Hwhy]]; [contradiction|].
  pose proof (inv_count _ _ I) as Hcnt.
  pose proof (inv_params _ _ I) as Hpar.
  pose proof (inv_wait _ _ I) as Hw.
  pose proof (pi_sleep _ _ P) as Hsl.
  pose proof (pi_stdout _ _ P) as Hso.
  pose proof (pi_free _ _ P) as Hfr.
  pose proof (hi_closed _ _ H) as Hcl.
  unfold spawned, past_wait, past_sleep, stdout_at, returned_ok, closing in *.
  rewrite Hpc, ?Hb in *.
  repeat split; auto.
  destruct (thread_table w); [reflexivity | simpl in Hcnt; lia].
Qed.

Lemma failed_exit_is_before_any_thread_witness :
  thread_table (run (calloc_fails ["5"; "2"]%string 4)
                  [ActMain; ActMain; ActCtrl 0; ActMain; ActMain] initial_world) = [].
Proof.
  refine (proj1 (proj2 (proj2
    (failed_exit_is_before_any_thread (calloc_fails ["5"; "2"]%string 4)
       [ActMain; ActMain; ActCtrl 0; ActMain; ActMain] EXIT_FAILURE eq_refl _)))).
  discriminate.
Defined.

(** X6: when [main] returns [EXIT_SUCCESS], standard output holds the banner
    and then "Finalizado." and nothing else, [Sleep] and
    [WaitForMultipleObjects] were each called once, [free] was called once,
    the spawn loop went through every index, and the flag is set. *)
Theorem successful_exit_outputs (inp : Input) (sched : list Action) :
  let w := run inp sched initial_world in
  exit_code w = Some EXIT_SUCCESS ->
  stdout_of (trace w) = [banner (locals w); finished_message] /\
  length (sleep_events (trace w)) = 1%nat /\
  length (wait_events (trace w)) = 1%nat /\
  free_calls (trace w) = [tt] /\
  spawn_params (trace w) = seqZ 0 (num_threads (locals w)) /\
  g_stop_flag w = 1.
Proof.
  intros w Hx.
  pose proof (inv_reachable inp sched) as I.
  pose proof (path_inv_reachable inp sched) as P.
  pose proof (flag_inv_reachable inp sched) as F.
  fold w in I, P, F.
  unfold exit_code in Hx. destruct (main_pc w) as [| | | | | | | | |c'] eqn:Hpc;
    try discriminate. injection Hx as ->.
  pose proof (inv_params _ _ I) as Hpar.
  pose proof (inv_wait _ _ I) as Hw.
  pose proof (pi_sleep _ _ P) as Hsl.
  pose proof (pi_stdout _ _ P) as Hso.
  pose proof (pi_free _ _ P) as Hfr.
  pose proof (fi_store _ _ F) as Hst.
  unfold spawned, past_wait, past_sleep, stdout_at, returned_ok, past_store in *.
  rewrite Hpc in *. simpl in *.
  destruct Hw as (b & Hb & _).
  rewrite Hsl, Hb. repeat split; auto.
Qed.

Lemma successful_exit_outputs_witness :
  stdout_of (trace (run (all_ok ["1"; "1"]%string 2)
     (repeat ActMain 7 ++ [ActWorker 0; ActWorker 0] ++ repeat ActMain 4)
     initial_world))
  = [banner {| duration := 1; num_cpus := 2; num_threads := 1; threads := [1] |};
     finished_message].
Proof.
  exact (proj1 (successful_exit_outputs (all_ok ["1"; "1"]%string 2)
     (repeat ActMain 7 ++ [ActWorker 0; ActWorker 0] ++ repeat ActMain 4) eq_refl)).
Defined.

Lemma handle_of_inj : Inj eq eq handle_of.
Proof. intros a b H. unfold handle_of in H. lia. Qed.

(** X7: no handle is closed before the wait has returned; and when [main]
    returns [EXIT_SUCCESS], the handles it has closed are the handles the
    successful [CreateThread] calls returned, in the same order, each closed
    once, one per thread, and [NULL] is never closed. *)
Theorem handles_closed_once (inp : Input) (sched : list Action) :
  let w := run inp sched initial_world in
  (past_wait w = false -> closed_handles (trace w) = []) /\
  (exit_code w = Some EXIT_SUCCESS ->
   closed_handles (trace w) = created_handles (trace w) /\
   NoDup (closed_handles (trace w)) /\
   length (closed_handles (trace w)) = length (thread_table w) /\
   0 ∉ closed_handles (trace w)).
Proof.
  intros w.
  pose proof (handle_inv_reachable inp sched) as H. fold w in H.
  pose proof (hi_closed _ _ H) as Hcl.
  pose proof (hi_array _ _ H) as Har.
  pose proof (hi_created _ _ H) as Hcr.
  split.
  - intros Hp. rewrite Hcl.
    assert (E : closing w = 0).
    { unfold past_wait in Hp. unfold closing. destruct (main_pc w); auto; try discriminate.
      rewrite Hp. reflexivity. }
    rewrite E. reflexivity.
  - intros Hx. unfold exit_code in Hx.
    destruct (main_pc w) as [| | | | | | | | |c'] eqn:Hpc; try discriminate.
    injection Hx as ->.
    unfold closing, spawned in *. rewrite Hpc in *. simpl in *.
    rewrite Hcl, Har, Hcr. split; [reflexivity|]. split; [|split].
    + apply (@NoDup_fmap_2 _ _ handle_of handle_of_inj). apply NoDup_seq.
    + rewrite length_fmap, length_seq. reflexivity.
    + intros Hin. apply list_elem_of_fmap in Hin as (k & Hk & _).
      unfold handle_of in Hk. lia.
Qed.

Lemma handles_closed_once_witness :
  closed_handles (trace (run (second_spawn_fails ["1"; "3"]%string 4)
     (repeat ActMain 15) initial_world))
  = created_handles (trace (run (second_spawn_fails ["1"; "3"]%string 4)
     (repeat ActMain 15) initial_world)).
Proof.
  exact (proj1 (proj2 (handles_closed_once (second_spawn_fails ["1"; "3"]%string 4)
     (repeat ActMain 15)) eq_refl)).
Defined.

(** X8: a thread returns only once the flag is set, and it returns 0: in
    every world a run reaches, a thread that has returned has returned 0 and
    the flag is 1; while the flag is 0 no thread has returned. *)
Theorem thread_returns_only_after_stop (inp : Input) (sched : list Action)
    (k : nat) (wk : Worker) :
  let w := run inp sched initial_world in
  thread_table w !! k = Some wk ->
  (has_exited wk = true -> w_pc wk = WDone 0 /\ g_stop_flag w = 1) /\
  (g_stop_flag w = 0 -> has_exited wk = false).
Proof.
  intros w Hk. pose proof (flag_inv_reachable inp sched) as F. fold w in F.
  assert (H : has_exited wk = true -> w_pc wk = WDone 0 /\ g_stop_flag w = 1).
  { unfold has_exited. destruct (w_pc wk) as [|x|i x|r] eqn:Hpc; try discriminate.
    intros _. destruct (fi_exited _ _ F k wk r Hk Hpc) as [-> Hf]. auto. }
  split; [exact H|].
  intros H0. destruct (has_exited wk); [|reflexivity].
  destruct (H eq_refl) as [_ H1]. lia.
Qed.

Lemma thread_returns_only_after_stop_witness :
  has_exited {| lpParam := 0; w_pc := WBatch 1 (batch_body 1.23456789%float) |} = false.
Proof.
  refine (proj2 (thread_returns_only_after_stop (all_ok ["1"; "1"]%string 2)
     (repeat ActMain 5 ++ [ActWorker 0; ActWorker 0; ActWorker 0]) 0%nat
     {| lpParam := 0; w_pc := WBatch 1 (batch_body 1.23456789%float) |} _) _).
  - vm_compute. reflexivity.
  - vm_compute. reflexivity.
Defined.

Lemma forallb_false_witness {A} (f : A -> bool) l :
  forallb f l = false -> exists x, In x l /\ f x = false.
Proof.
  induction l as [|a l IH]; simpl; [discriminate|].
  destruct (f a) eqn:Hfa; simpl.
  - intros H. destruct (IH H) as (x & Hin & Hx). eauto.
  - intros _. eauto.
Qed.

(** X9: the only place where [main] does not move is its wait, and only
    while a thread it waits for is still running: in a live process that a
    run reaches, if a step of [main] changes nothing then [main] stands at
    [WaitForMultipleObjects], the flag is set, no spawn had failed, and some
    thread has not returned. *)
Theorem main_blocks_only_in_the_join (inp : Input) (sched : list Action) :
  let w := run inp sched initial_world in
  process_gone w = false ->
  step inp ActMain w = w ->
  main_pc w = MWait /\
  g_stop_flag w = 1 /\
  ~ some_spawn_fails inp w /\
  exists k wk, thread_table w !! k = Some wk /\ has_exited wk = false.
Proof.
  intros w Hg Hfix.
  pose proof (inv_reachable inp sched) as I.
  pose proof (flag_inv_reachable inp sched) as F.
  fold w in I, F.
  unfold step in Hfix. rewrite Hg in Hfix.
  assert (Hpc' : main_pc (main inp w) = main_pc w) by (rewrite Hfix; reflexivity).
  assert (Hpc : main_pc w = MWait).
  { unfold process_gone in Hg. unfold main in Hpc'.
    destruct (main_pc w) eqn:E; try discriminate Hg; auto;
      repeat match type of Hpc' with
             | context [match ?x with _ => _ end] => destruct x
             end; simpl in Hpc'; try discriminate Hpc';
      injection Hpc'; lia. }
  split; [exact Hpc|]. split.
  { apply (fi_store _ _ F). unfold past_store. rewrite Hpc. reflexivity. }
  pose proof (wait_result inp w I Hpc) as Hw.
  unfold main in Hpc'. rewrite Hpc in Hpc'.
  unfold WaitForMultipleObjects in *.
  destruct ((to_DWORD (num_threads (locals w)) <=? 0)
            || (MAXIMUM_WAIT_OBJECTS <? to_DWORD (num_threads (locals w))));
    [discriminate Hpc'|].
  destruct (forallb _ _) eqn:Hv in Hpc', Hw; [|discriminate Hpc'].
  destruct (forallb _ _) eqn:He in Hpc', Hw; [discriminate Hpc'|].
  split; [exact Hw|].
  destruct (forallb_false_witness _ _ He) as (h & Hin & Hh).
  pose proof (proj1 (forallb_forall _ _) Hv h Hin) as Hval. cbv beta in Hval.
  apply bool_decide_eq_true in Hval as [wk Hwk]. rewrite Hwk in Hh.
  unfold thread_of_handle in Hwk. destruct (h <=? 0); [discriminate|].
  eauto.
Qed.

Lemma main_blocks_only_in_the_join_witness :
  main_pc (run (all_ok ["1"; "1"]%string 2) (repeat ActMain 8) initial_world) = MWait.
Proof.
  refine (proj1 (main_blocks_only_in_the_join (all_ok ["1"; "1"]%string 2)
                   (repeat ActMain 8) eq_refl _)).
  vm_compute. reflexivity.
Defined.

Lemma affinity_mask_bit wk :
  0 <= cpu_index wk < 64 -> affinity_mask wk = 2 ^ cpu_index wk.
Proof.
  intros H. unfold affinity_mask, to_DWORD_PTR.
  rewrite Z.shiftl_1_l. apply Z.mod_small. split; [lia|].
  change 18446744073709551616 with (2 ^ 64). apply Z.pow_lt_mono_r; lia.
Qed.

(** X10: on a machine of at most 64 logical processors, the first turn of a
    thread asks for the affinity mask that has the one bit [cpu_index] set,
    a mask no other thread of the run asks for; if the call fails the thread
    writes one warning naming its index and the error code; in both cases it
    goes on into its loop with [x = 1.23456789]. *)
Theorem worker_pins_then_runs (inp : Input) (sched : list Action)
    (k : nat) (wk : Worker) :
  let w := run inp sched initial_world in
  num_cpus (locals w) <= 64 ->
  process_gone w = false ->
  thread_table w !! k = Some wk ->
  w_pc wk = WEntry ->
  let w' := step inp (ActWorker k) w in
  let mask := 2 ^ cpu_index wk in
  affinity_mask wk = mask /\
  (forall j, 0 <= j -> Z.testbit mask j = true <-> j = cpu_index wk) /\
  (forall k2 wk2, thread_table w !! k2 = Some wk2 -> k2 <> k ->
                  affinity_mask wk2 <> affinity_mask wk) /\
  thread_table w' !! k
  = Some {| lpParam := lpParam wk; w_pc := WCheck 1.23456789%float |} /\
  trace w' = trace w ++
    CallSetThreadAffinityMask k mask ::
    (if SetThreadAffinityMask_old inp mask =? 0
     then [Stderr ("[Thread " ++ fmt_d (cpu_index wk)
                   ++ "] Erro em SetThreadAffinityMask ("
                   ++ fmt_lu (SetThreadAffinityMask_err inp mask)
                   ++ ")" ++ nl)%string]
     else []).
Proof.
  intros w Hcpu Hg Hk Hpc w' mask.
  pose proof (inv_reachable inp sched) as I. fold w in I.
  assert (Hrange : forall k0 wk0, thread_table w !! k0 = Some wk0 ->
            cpu_index wk0 = lpParam wk0 /\ 0 <= cpu_index wk0 < 64).
  { intros k0 wk0 H0. destruct (inv_table _ _ I k0 wk0 H0) as (Hr & _).
    pose proof (inv_spawned _ _ I) as Hs. pose proof (inv_nt _ _ I) as Hn.
    assert (Hc : configured w = true) by (apply spawned_pos_configured; lia).
    destruct (inv_threads_range _ _ I Hc) as [Hle _].
    unfold cpu_index. rewrite to_int_id by (unfold INT_MIN, INT_MAX in *; lia).
    split; [reflexivity | lia]. }
  destruct (Hrange k wk Hk) as [Hidx Hlt].
  assert (Hm : affinity_mask wk = mask) by (apply affinity_mask_bit, Hlt).
  split; [exact Hm|]. split; [|split; [|split]].
  - intros j Hj. subst mask. rewrite Z.pow2_bits_eqb by lia.
    rewrite Z.eqb_eq. split; intros; congruence.
  - intros k2 wk2 Hk2 Hne Heq.
    destruct (Hrange k2 wk2 Hk2) as [Hidx2 Hlt2].
    rewrite (affinity_mask_bit wk2 Hlt2), Hm in Heq. subst mask.
    apply Z.pow_inj_r in Heq; try lia.
    destruct (inv_table _ _ I k wk Hk) as (_ & _ & Ht).
    destruct (inv_table _ _ I k2 wk2 Hk2) as (_ & _ & Ht2).
    rewrite <- Hidx, <- Hidx2, Heq in *. rewrite Ht in Ht2.
    injection Ht2. unfold handle_of. lia.
  - subst w'. rewrite (step_thread inp (ActWorker k) w k wk Hk). simpl.
    rewrite Nat.eqb_refl, Hg. simpl. unfold worker_thread. rewrite Hpc.
    reflexivity.
  - subst w'. unfold step. rewrite Hg.
    rewrite (worker_step_trace _ _ _ _ Hk). unfold worker_thread.
    rewrite Hpc. simpl. rewrite Hm. reflexivity.
Qed.

Lemma worker_pins_then_runs_witness :
  trace (step (pinning_fails ["1"; "2"]%string 2) (ActWorker 1)
           (run (pinning_fails ["1"; "2"]%string 2) (repeat ActMain 6) initial_world))
  = trace (run (pinning_fails ["1"; "2"]%string 2) (repeat ActMain 6) initial_world)
    ++ [CallSetThreadAffinityMask 1 2;
        Stderr ("[Thread 1] Erro em SetThreadAffinityMask (87)" ++ nl)%string].
Proof.
  refine (proj2 (proj2 (proj2 (proj2
    (worker_pins_then_runs (pinning_fails ["1"; "2"]%string 2) (repeat ActMain 6)
       1%nat {| lpParam := 1; w_pc := WEntry |} _ eq_refl _ eq_refl))))).
  - vm_compute. discriminate.
  - vm_compute. reflexivity.
Defined.

(** X11: the flag is set by [main]'s store and by the handler and by
    nothing else: once [main] has passed its store the flag is 1; if the flag
    is 1 before that, the handler is installed, which needs
    [SetConsoleCtrlHandler] to have succeeded; so when the registration
    fails the flag is 1 exactly when [main] has made its store. *)
Theorem flag_set_by_store_or_handler (inp : Input) (sched : list Action) :
  let w := run inp sched initial_world in
  (past_store w = true -> g_stop_flag w = 1) /\
  (g_stop_flag w = 1 -> past_store w = false ->
   handler_installed w = true /\ SetConsoleCtrlHandler_ok inp = true /\
   main_pc w <> MStart /\ main_pc w <> MRegister) /\
  (SetConsoleCtrlHandler_ok inp = false ->
   handler_installed w = false /\
   (g_stop_flag w = 1 <-> past_store w = true)).
Proof.
  intros w. pose proof (flag_inv_reachable inp sched) as F. fold w in F.
  destruct F as [Hb Hs Ho Hi He].
  split; [exact Hs|]. split.
  - intros H1 Hp. destruct (Ho H1) as [H | H]; [congruence|].
    split; [exact H|]. apply Hi, H.
  - intros Hno.
    assert (Hn : handler_installed w = false).
    { destruct (handler_installed w); [|reflexivity].
      destruct (Hi eq_refl) as [H _]. congruence. }
    split; [exact Hn|]. split; [|exact Hs].
    intros H1. destruct (Ho H1) as [H | H]; [exact H | congruence].
Qed.

(** X12: a failed spawn is skipped and the loop goes on: the threads that
    exist are, in order, those of the indices gone through so far for which
    [CreateThread] succeeded, the array holds their handles in that order
    with [NULL] in the slots of the failed ones, and as many threads exist
    as spawns succeeded. *)
Theorem threads_are_the_successful_spawns (inp : Input) (sched : list Action) :
  let w := run inp sched initial_world in
  let done := seqZ 0 (spawned w) in
  lpParam <$> thread_table w = List.filter (CreateThread_ok inp) done /\
  created_handles (trace w) = handle_of <$> seq 0 (length (thread_table w)) /\
  List.filter nonnull (take (Z.to_nat (spawned w)) (threads (locals w)))
  = created_handles (trace w) /\
  (forall j, j ∈ done -> CreateThread_ok inp j = false ->
             threads (locals w) !! Z.to_nat j = Some 0) /\
  length (thread_table w) = length (List.filter (CreateThread_ok inp) done).
Proof.
  intros w done.
  pose proof (inv_reachable inp sched) as I.
  pose proof (handle_inv_reachable inp sched) as H.
  fold w in I, H.
  pose proof (hi_params _ _ H) as Hp.
  split; [exact Hp|]. split; [apply (hi_created _ _ H)|]. split; [|split].
  - rewrite (hi_created _ _ H). apply (hi_array _ _ H).
  - intros j Hj Hf. apply elem_of_seqZ in Hj.
    apply (inv_failed _ _ I); [lia | exact Hf].
  - fold done in Hp. rewrite <- Hp. symmetry. apply length_fmap.
Qed.

(** *** The join, on sample runs *)

Lemma join_waits_when_every_spawn_succeeds_witness :
  Forall (fun wk => has_exited wk = true)
    (thread_table (run (all_ok ["1"; "1"]%string 2)
       (repeat ActMain 7 ++ [ActWorker 0; ActWorker 0] ++ [ActMain]) initial_world)).
Proof.
  refine (join_waits_when_every_spawn_succeeds (all_ok ["1"; "1"]%string 2)
    (repeat ActMain 7 ++ [ActWorker 0; ActWorker 0] ++ [ActMain]) _ _ eq_refl).
  - intros j. reflexivity.
  - vm_compute. discriminate.
Defined.

Lemma wait_fails_after_failed_spawn_witness :
  main_pc (main partial_spawn (run partial_spawn (repeat ActMain 8) initial_world))
  = MClose 0.
Proof.
  refine (proj1 (wait_fails_after_failed_spawn partial_spawn (repeat ActMain 8)
                   eq_refl _)).
  exists 1. split; [|reflexivity].
  vm_compute. split; [discriminate | reflexivity].
Defined.

(** *** One pinning per thread *)

Lemma main_affinity_calls inp w k :
  affinity_calls k (trace (main inp w)) = affinity_calls k (trace w).
Proof.
  unfold main, affinity_calls. break_match; simpl; rewrite ?omap_app; simpl;
    rewrite ?app_nil_r; reflexivity.
Qed.

Lemma main_pinned_mask inp w k : pinned_mask (main inp w) k = pinned_mask w k.
Proof.
  unfold pinned_mask. destruct (main_table inp w) as [-> | [p ->]]; [reflexivity|].
  destruct (thread_table w !! k) as [wk|] eqn:Hk.
  - rewrite lookup_app_l by (eapply lookup_lt_Some, Hk). rewrite Hk. reflexivity.
  - destruct (decide (k = length (thread_table w))) as [-> | Hne].
    + rewrite list_lookup_middle by reflexivity. reflexivity.
    + rewrite lookup_ge_None_2; [reflexivity|].
      apply lookup_ge_None in Hk. rewrite length_app. simpl. lia.
Qed.

Lemma pinning_step inp a w k :
  affinity_calls k (trace w) = pinned_mask w k ->
  affinity_calls k (trace (step inp a w)) = pinned_mask (step inp a w) k.
Proof.
  intros H. unfold step. destruct (process_gone w); [exact H|].
  destruct a as [|k'|c].
  - rewrite main_affinity_calls, main_pinned_mask. exact H.
  - destruct (thread_table w !! k') as [wk'|] eqn:Hk';
      [|rewrite worker_step_none by exact Hk'; exact H].
    unfold pinned_mask in *.
    rewrite (worker_step_trace _ _ _ _ Hk'), (worker_step_table _ _ _ _ Hk').
    unfold affinity_calls in *. rewrite omap_app, H.
    destruct (decide (k' = k)) as [-> | Hne].
    + rewrite Hk'.
      rewrite list_lookup_insert_eq by (eapply lookup_lt_Some, Hk').
      unfold worker_thread. simpl.
      destruct (w_pc wk') as [|x|i x|r]; simpl.
      * rewrite Nat.eqb_refl.
        destruct (SetThreadAffinityMask_old inp (affinity_mask wk') =? 0); reflexivity.
      * destruct (g_stop_flag w =? 0); reflexivity.
      * destruct (i <? BATCH); reflexivity.
      * reflexivity.
    + rewrite list_lookup_insert_ne by exact Hne.
      assert (E : omap (fun e => match e with
                   | CallSetThreadAffinityMask k'0 m =>
                       if Nat.eqb k'0 k then Some m else None
                   | _ => None
                   end) (snd (worker_thread inp k' (g_stop_flag w) wk')) = []).
      { unfold worker_thread. apply Nat.eqb_neq in Hne.
        break_match; simpl; rewrite ?Hne; reflexivity. }
      rewrite E. apply app_nil_r.
  - destruct (handler_installed w); [|exact H].
    destruct (handler_frame c w) as (_ & _ & Htr & Ht).
    unfold pinned_mask in *. rewrite Htr, Ht. exact H.
Qed.

(** X13: a thread calls [SetThreadAffinityMask] once, in its first turn and
    with its own mask, and never again: in every world a run reaches the
    calls thread [k] has made are none while it stands at its entry (or does
    not exist) and the one call with [1 << cpu_index] afterwards. *)
Theorem each_thread_pins_once (inp : Input) (sched : list Action) (k : nat) :
  let w := run inp sched initial_world in
  affinity_calls k (trace w) =
  match thread_table w !! k with
  | Some wk => match w_pc wk with WEntry => [] | _ => [affinity_mask wk] end
  | None => []
  end.
Proof.
  intros w. subst w.
  assert (H : forall w0, affinity_calls k (trace w0) = pinned_mask w0 k ->
                         affinity_calls k (trace (run inp sched w0))
                         = pinned_mask (run inp sched w0) k).
  { induction sched as [|a sched IH]; intros w0 H0; [exact H0|].
    rewrite run_cons. apply IH, pinning_step, H0. }
  apply (H initial_world). reflexivity.
Qed.

(** *** Arguments that are not numbers, along the whole run *)

(** C10: let the second argument be one [atoi] reads as 0 and the first be
    read as a positive duration.  Then the first step of [main] writes the
    banner with a thread count of 1 and nothing on standard error and goes
    on; along every schedule [CreateThread] is called for index 0 and for no
    other index, exactly once by the time the spawn loop is left; at most
    one thread ever exists, and once the loop is left and the spawn has
    succeeded exactly one thread exists, the one of index 0; and [main]
    returns a failure only if [calloc] fails.  Let instead the first
    argument be one [atoi] reads as 0, whatever follows it: [main] writes
    "Duracao invalida", returns [EXIT_FAILURE] and no thread exists. *)
Theorem non_numeric_arguments (inp : Input) (sched : list Action) :
  let w1 := main inp initial_world in
  let w := run inp (ActMain :: sched) initial_world in
  (forall argv1 argv2 rest,
     args inp = argv1 :: argv2 :: rest ->
     atoi argv2 = 0 ->
     0 < atoi argv1 ->
     main_pc w1 = MRegister /\
     num_threads (locals w1) = 1 /\
     trace w1 = [Stdout (banner (locals w1))] /\
     stderr_of (trace w1) = [] /\
     (spawn_params (trace w) = [] \/ spawn_params (trace w) = [0]) /\
     (past_spawn_loop w = true -> spawn_params (trace w) = [0]) /\
     (length (thread_table w) <= 1)%nat /\
     (past_spawn_loop w = true -> CreateThread_ok inp 0 = true ->
      exists wk, thread_table w = [wk] /\ lpParam wk = 0 /\ cpu_index wk = 0) /\
     (past_spawn_loop w = true -> CreateThread_ok inp 0 = false ->
      thread_table w = []) /\
     (forall c, exit_code w = Some c -> c <> EXIT_SUCCESS ->
                calloc_ok inp = false)) /\
  (forall argv1 rest,
     args inp = argv1 :: rest ->
     atoi argv1 = 0 ->
     exit_code w = Some EXIT_FAILURE /\
     trace w = [Stderr invalid_duration_message] /\
     thread_table w = []).
Proof.
  intros w1 w. split.
  - intros argv1 argv2 rest Ha H2 Hd.
    destruct (main_configures inp argv1 (argv2 :: rest) Ha Hd)
      as (Hpc & _ & Hcpu & Hnt & Htr).
    fold w1 in Hpc, Hcpu, Hnt, Htr.
    pose proof (available_processor_count_range (dwNumberOfProcessors inp)) as Hr.
    assert (Hone : effective_thread_count (requested_thread_count inp)
                     (available_processor_count (dwNumberOfProcessors inp)) = 1).
    { rewrite (requested_second_argument inp argv1 argv2 rest Ha), H2.
      apply effective_thread_count_zero. lia. }
    split; [exact Hpc|]. split; [rewrite Hnt, Hcpu; exact Hone|].
    split; [exact Htr|]. split; [rewrite Htr; reflexivity|].
    pose proof (inv_reachable inp (ActMain :: sched)) as I.
    pose proof (handle_inv_reachable inp (ActMain :: sched)) as H.
    pose proof (path_inv_reachable inp (ActMain :: sched)) as P.
    fold w in I, H, P.
    pose proof (inv_params _ _ I) as Hp.
    pose proof (inv_spawned _ _ I) as Hs.
    pose proof (inv_count _ _ I) as Hc.
    assert (Hle : spawned w <= 1).
    { destruct (configured w) eqn:Hcf.
      - destruct (inv_cfg _ _ I Hcf) as [E1 E2]. rewrite E1 in E2.
        rewrite Hone in E2. lia.
      - rewrite (unconfigured_spawned w Hcf). lia. }
    assert (Hall : past_spawn_loop w = true -> spawned w = 1).
    { intros Hps. destruct (past_spawn_loop_spawned w Hps) as [E Hcf].
      destruct (inv_cfg _ _ I Hcf) as [E1 E2]. rewrite E1, Hone in E2.
      rewrite E. exact E2. }
    split; [|split; [|split; [|split; [|split]]]].
    + rewrite Hp. assert (Hv : spawned w = 0 \/ spawned w = 1) by lia.
      destruct Hv as [-> | ->]; auto.
    + intros Hps. rewrite Hp, (Hall Hps). reflexivity.
    + lia.
    + intros Hps Hok. pose proof (hi_params _ _ H) as Hpar.
      rewrite (Hall Hps) in Hpar.
      change (seqZ 0 1) with [0] in Hpar. simpl in Hpar. rewrite Hok in Hpar.
      destruct (thread_table w) as [|wk [|wk2 t]]; try discriminate Hpar.
      injection Hpar as Hlp. exists wk. split; [reflexivity|]. split; [exact Hlp|].
      unfold cpu_index. rewrite Hlp. reflexivity.
    + intros Hps Hok. pose proof (hi_params _ _ H) as Hpar.
      rewrite (Hall Hps) in Hpar.
      change (seqZ 0 1) with [0] in Hpar. simpl in Hpar. rewrite Hok in Hpar.
      destruct (thread_table w); [reflexivity | discriminate Hpar].
    + intros c Hx Hne. unfold exit_code in Hx.
      destruct (main_pc w) as [| | | | | | | | |c'] eqn:Hpcw; try discriminate.
      injection Hx as ->.
      destruct (pi_code _ _ P c Hpcw) as [-> | [_ [Hbad | Hcal]]];
        [contradiction | | exact Hcal].
      unfold duration_ok in Hbad. rewrite Ha in Hbad.
      apply Z.ltb_ge in Hbad. lia.
  - intros argv1 rest Ha Hz.
    assert (Hm : main inp initial_world
                 = set_pc (MReturned EXIT_FAILURE)
                     (emit [Stderr invalid_duration_message] initial_world)).
    { apply (main_rejects_duration inp argv1 rest Ha). lia. }
    subst w. rewrite run_after_return by (rewrite Hm; reflexivity).
    rewrite Hm. repeat split.
Qed.

Lemma non_numeric_arguments_witness :
  (exists wk,
     thread_table (run (all_ok ["5"; "abc"]%string 8)
                     (ActMain :: repeat ActMain 5) initial_world) = [wk] /\
     lpParam wk = 0 /\ cpu_index wk = 0) /\
  exit_code (run (all_ok ["abc"; "4"]%string 8) [ActMain] initial_world)
  = Some EXIT_FAILURE /\
  exit_code (run (all_ok ["abc"%string] 8) [ActMain] initial_world)
  = Some EXIT_FAILURE.
Proof.
  split; [|split].
  - refine (proj1 (proj2 (proj2 (proj2 (proj2 (proj2 (proj2 (proj2
      (proj1 (non_numeric_arguments (all_ok ["5"; "abc"]%string 8)
                (repeat ActMain 5))
         "5"%string "abc"%string [] eq_refl _ _)))))))) eq_refl eq_refl).
    + vm_compute; reflexivity.
    + vm_compute; reflexivity.
  - refine (proj1 (proj2 (non_numeric_arguments (all_ok ["abc"; "4"]%string 8) [])
                     "abc"%string ["4"%string] eq_refl _)).
    vm_compute; reflexivity.
  - refine (proj1 (proj2 (non_numeric_arguments (all_ok ["abc"%string] 8) [])
                     "abc"%string [] eq_refl _)).
    vm_compute; reflexivity.
Defined.
